(** * Conduit: the manager, the reconciler, the config loader and the watcher

    A shallow embedding of the Go packages [internal/config],
    [internal/manager] and [internal/watcher] of pperesbr/conduit, and the
    properties of the specification that are decided by that code.

    Conventions of the embedding.
    - Go [int] and [time.Duration] values are only compared, never computed
      with, and are integers [Z].
    - Go maps ([map[string]T]) are finite maps [gmap string T]; a
      [map[string]bool] that only ever receives [true] is a finite set.
    - A Go [error] result is [option error]; [nil] is [None].
    - Calls are sequential: the mutex [mu] of the manager is not modelled, and
      the goroutine started by [startAutoRestartForTunnel] is represented by
      the channel that cancels it. *)

From Stdlib Require Import Ascii.
From stdpp Require Import gmap strings list fin_maps.
From Equations Require Import Equations.

Local Open Scope Z_scope.

(** ** Errors and log lines *)

(** The error values built in the sources. Every constructor stands for one
    [fmt.Errorf] call and carries the arguments of its format string. *)
#[warnings="-register-all"]
Inductive error : Type :=
  (* an error value returned by a library outside the repository *)
  | LibError (msg : string)
  (* config: "failed to read config file: %w" *)
  | ErrReadConfig (cause : error)
  (* config: "failed to parse config file: %w" *)
  | ErrParseConfig (cause : error)
  (* config: "invalid config: %w" *)
  | ErrInvalidConfig (cause : error)
  (* config: "ssh: %w" *)
  | ErrSSH (cause : error)
  (* config: "at least one tunnel is required" *)
  | ErrNoTunnels
  (* config: "tunnels[%d].name is required" *)
  | ErrNameRequired (i : nat)
  (* config: "duplicate tunnel name: %s" *)
  | ErrDuplicateName (name : string)
  (* config: "tunnels[%d].remoteHost is required" *)
  | ErrRemoteHostRequired (i : nat)
  (* config: "tunnels[%d].remotePort must be greater than 0" *)
  | ErrRemotePort (i : nat)
  (* config: "tunnels[%d].localPort must be greater than 0" *)
  | ErrLocalPort (i : nat)
  (* config: "duplicate localPort: %d" *)
  | ErrDuplicateLocalPort (port : Z)
  (* config: "tunnels[%d].autoRestart.interval must be greater than 0 when enabled" *)
  | ErrInterval (i : nat)
  (* manager: "tunnel %s already exists" *)
  | ErrAlreadyExists (name : string)
  (* manager: "tunnel %s not found" *)
  | ErrNotFound (name : string)
  (* manager: "failed to stop tunnel %s: %w" *)
  | ErrFailedToStop (name : string) (cause : error)
  (* manager: "failed to start tunnel %s: %w" *)
  | ErrFailedToStart (name : string) (cause : error)
  (* manager: "failed to restart tunnel %s: %w" *)
  | ErrFailedToRestart (name : string) (cause : error)
  (* manager: "errors closing manager: %v", with the map of failures *)
  | ErrClosing (errors : list (string * error)).

(** The lines written with [log.Printf] by [Reconcile] and by the watcher. *)
Inductive LogEntry : Type :=
  (* "reconcile: removing tunnel %s" *)
  | LogRemoving (name : string)
  (* "reconcile: failed to remove %s: %v" *)
  | LogRemoveFailed (name : string) (err : error)
  (* "reconcile: adding tunnel %s" *)
  | LogAdding (name : string)
  (* "reconcile: failed to add %s: %v" *)
  | LogAddFailed (name : string) (err : error)
  (* "reconcile: failed to start %s: %v" *)
  | LogStartFailed (name : string) (err : error)
  (* "reconcile: tunnel %s changed, restarting" *)
  | LogChangedRestarting (name : string)
  (* "reconcile: failed to restart %s: %v" *)
  | LogRestartFailed (name : string) (err : error)
  (* "watcher: invalid config, keeping current state: %v" *)
  | LogInvalidConfig (err : error)
  (* "watcher: failed to reconcile: %v" *)
  | LogReconcileFailed (err : error).

(** ** Methods as programs

    A method of an object with state [S] runs on the state and either
    returns a value, the state as it leaves it and the lines it logged, or
    panics. *)
Inductive outcome (S A : Type) : Type :=
  | Done (a : A) (s : S) (out : list LogEntry)
  | Panic.
Arguments Done {S A} a s out.
Arguments Panic {S A}.

Definition M (S A : Type) : Type := S → outcome S A.

Definition ret {S A} (a : A) : M S A := λ s, Done a s [].

Definition bind {S A B} (c : M S A) (k : A → M S B) : M S B := λ s,
  match c s with
  | Done a s1 out1 =>
    match k a s1 with
    | Done b s2 out2 => Done b s2 (out1 ++ out2)
    | Panic => Panic
    end
  | Panic => Panic
  end.

Definition get {S} : M S S := λ s, Done s s [].
Definition modify {S} (f : S → S) : M S unit := λ s, Done () (f s) [].
Definition logPrintf {S} (line : LogEntry) : M S unit := λ s, Done () s [line].
Definition panic {S A} : M S A := λ _, Panic.

Declare Scope manager_scope.
Delimit Scope manager_scope with mgr.
Notation "x ← c ; k" := (bind c (λ x, k))
  (at level 20, c at level 100, k at level 200, only parsing) : manager_scope.
Notation "' x ← c ; k" := (bind c (λ x, k))
  (at level 20, x pattern, c at level 100, k at level 200, only parsing) : manager_scope.
Notation "c ;; k" := (bind c (λ _, k))
  (at level 100, k at level 200, right associativity, only parsing) : manager_scope.

(** [for _, x := range l { body }] *)
Fixpoint forEach {S A} (l : list A) (body : A → M S unit) : M S unit :=
  match l with
  | [] => ret ()
  | x :: l' => bind (body x) (λ _, forEach l' body)
  end.

(** The same loop around a local variable [acc] that the body updates. *)
Fixpoint forEachAcc {S A B} (l : list A) (acc : B) (body : B → A → M S B) : M S B :=
  match l with
  | [] => ret acc
  | x :: l' => bind (body acc x) (λ acc', forEachAcc l' acc' body)
  end.

(** Total correctness: from a state in [P] the program returns, without
    panic, a value and a state in [Q]. *)
Definition total {S A} (P : S → Prop) (c : M S A) (Q : A → S → Prop) : Prop :=
  ∀ s, P s → ∃ a s' out, c s = Done a s' out ∧ Q a s'.

(** ** The tunnel library

    Package [github.com/pperesbr/gokit/pkg/tunnel] is imported by the
    sources and is not part of them. The manager and the config package use
    it through the interface below; every result about them holds for any
    implementation of the interface. *)
Module tunnel.

(** [tunnel.Status]: the four states of section 3 of the specification. *)
Inductive Status : Type :=
  | StatusStopped
  | StatusStarting
  | StatusRunning
  | StatusError.

#[global] Instance Status_eq_dec : EqDecision Status.
Proof. solve_decision. Defined.

(** A method with a pointer receiver that returns an [error]: it yields
    the tunnel as the call leaves it, and the error. *)
Class Lib : Type := {
  (** [tunnel.SSHConfig] *)
  SSHConfig : Type;
  (** method [Validate] of [SSHConfig] *)
  SSHConfig_Validate : SSHConfig → option error;
  (** [tunnel.Tunnel] *)
  Tunnel : Type;
  (** [tunnel.NewTunnel(sshConfig, remoteHost, remotePort, localPort)] *)
  NewTunnel : SSHConfig → string → Z → Z → Tunnel;
  (** method [Status] of [Tunnel] *)
  Tunnel_Status : Tunnel → Status;
  (** method [LastError] of [Tunnel] *)
  Tunnel_LastError : Tunnel → option error;
  (** methods [Start], [Stop] and [Restart] of [Tunnel] *)
  Tunnel_Start : Tunnel → Tunnel * option error;
  Tunnel_Stop : Tunnel → Tunnel * option error;
  Tunnel_Restart : Tunnel → Tunnel * option error;
  (** Modelled from the spec: the body of [NewTunnel] is missing from the
      sources; section 3 gives "Initial = Stopped" and "Tunnel created on
      Add (status Stopped)". *)
  NewTunnel_Stopped : ∀ ssh host rport lport,
    Tunnel_Status (NewTunnel ssh host rport lport) = StatusStopped;
}.

End tunnel.

(** ** A tunnel library for the examples

    Modelled from the spec: package [gokit/pkg/tunnel] is missing from the
    sources. This instance of the interface follows section 4.1 (the tunnel
    state machine), section 4.5 (the rules for the SSH block) and the calls
    to [tunnel.NewSSHConfig] in the tests. What the operating system and the
    network decide is part of the tunnel: [bindFails] tells whether binding
    the listener fails, [stopFails] lists the outcome of the coming attempts
    to stop ([true] for a failed one). *)
Module tunnel_model.
Import tunnel.

(** The arguments of [tunnel.NewSSHConfig(user, password, keyFile, host,
    knownHostsFile, port)]. *)
Record SSHConfig : Type := {
  User : string;
  Password : string;
  KeyFile : string;
  Host : string;
  KnownHostsFile : string;
  Port : Z;
}.

(** "SSH: user and host non-empty; at least one of password or keyFile set." *)
Definition SSHConfig_Validate (c : SSHConfig) : option error :=
  if decide (User c = EmptyString) then Some (LibError "user is required")
  else if decide (Host c = EmptyString) then Some (LibError "host is required")
  else if decide (Password c = EmptyString ∧ KeyFile c = EmptyString)
       then Some (LibError "password or keyFile is required")
  else None.

Record Tunnel : Type := {
  sshConfig : SSHConfig;
  remoteHost : string;
  remotePort : Z;
  localPort : Z;
  status : Status;
  lastError : option error;
  bindFails : bool;
  stopFails : list bool;
}.

Definition NewTunnel (ssh : SSHConfig) (host : string) (rport lport : Z) : Tunnel :=
  {| sshConfig := ssh; remoteHost := host; remotePort := rport; localPort := lport;
     status := StatusStopped; lastError := None;
     bindFails := false; stopFails := [] |}.

Definition with_status (s : Status) (e : option error) (t : Tunnel) : Tunnel :=
  {| sshConfig := sshConfig t; remoteHost := remoteHost t; remotePort := remotePort t;
     localPort := localPort t; status := s; lastError := e;
     bindFails := bindFails t; stopFails := stopFails t |}.

Definition with_stopFails (l : list bool) (t : Tunnel) : Tunnel :=
  {| sshConfig := sshConfig t; remoteHost := remoteHost t; remotePort := remotePort t;
     localPort := localPort t; status := status t; lastError := lastError t;
     bindFails := bindFails t; stopFails := l |}.

(** "Transitions Stopped/Error → Starting → Running. Fails with
    AlreadyRunning if status is Running or Starting; with ListenFailed if
    bind fails." *)
Definition Start (t : Tunnel) : Tunnel * option error :=
  match status t with
  | StatusRunning | StatusStarting => (t, Some (LibError "AlreadyRunning"))
  | StatusStopped | StatusError =>
    if bindFails t
    then (with_status StatusError (Some (LibError "ListenFailed")) t,
          Some (LibError "ListenFailed"))
    else (with_status StatusRunning None t, None)
  end.

(** "Transitions Running/Error → Stopped. Idempotent: calling on an
    already-Stopped tunnel returns success." A failed attempt (the
    [StopTimeout] of section 7) leaves the status as it is. *)
Definition Stop (t : Tunnel) : Tunnel * option error :=
  match status t with
  | StatusStopped => (t, None)
  | _ =>
    match stopFails t with
    | true :: rest =>
      (with_stopFails rest (with_status (status t) (Some (LibError "StopTimeout")) t),
       Some (LibError "StopTimeout"))
    | false :: rest => (with_stopFails rest (with_status StatusStopped None t), None)
    | [] => (with_status StatusStopped None t, None)
    end
  end.

(** "Restart: Stop then Start." *)
Definition Restart (t : Tunnel) : Tunnel * option error :=
  match Stop t with
  | (t', Some e) => (t', Some e)
  | (t', None) => Start t'
  end.

Definition lib : tunnel.Lib :=
  {| tunnel.SSHConfig := SSHConfig;
     tunnel.SSHConfig_Validate := SSHConfig_Validate;
     tunnel.Tunnel := Tunnel;
     tunnel.NewTunnel := NewTunnel;
     tunnel.Tunnel_Status := status;
     tunnel.Tunnel_LastError := lastError;
     tunnel.Tunnel_Start := Start;
     tunnel.Tunnel_Stop := Stop;
     tunnel.Tunnel_Restart := Restart;
     tunnel.NewTunnel_Stopped := λ _ _ _ _, eq_refl |}.

(** The SSH block of the tests: [NewSSHConfig("user", "pass", "", "localhost", "", 22)]. *)
Definition testSSH : SSHConfig :=
  {| User := "user"; Password := "pass"; KeyFile := EmptyString;
     Host := "localhost"; KnownHostsFile := EmptyString; Port := 22 |}.

End tunnel_model.

(** ** Package os of Go's standard library

    [config.Load] calls [os.ReadFile] and [os.ExpandEnv]. They belong to
    Go's standard library, not to the repository; [Expand] and
    [getShellName] are transcribed from the library (file [os/env.go]).
    A Go string is a sequence of bytes: a [string] here. *)
Module os.

(** What the process sees of the machine: the files by path and the
    environment variables that are set. *)
Record OS : Type := {
  files : gmap string string;
  environ : gmap string string;
}.

(** [os.ReadFile]; a path with no file is the failing case. *)
Definition ReadFile (sys : OS) (path : string) : error + string :=
  match files sys !! path with
  | Some data => inr data
  | None => inl (LibError "open: no such file or directory")
  end.

(** [os.Getenv]: "the value, which will be empty if the variable is not
    present". *)
Definition Getenv (sys : OS) (key : string) : string :=
  default EmptyString (environ sys !! key).

Definition between (lo hi : nat) (c : ascii) : bool :=
  (lo <=? nat_of_ascii c)%nat && (nat_of_ascii c <=? hi)%nat.

(** [isShellSpecialVar]: one of [* # $ @ ! ? -] or a digit. *)
Definition isShellSpecialVar (c : ascii) : bool :=
  bool_decide (c ∈ ["*"; "#"; "$"; "@"; "!"; "?"; "-"]%char) || between 48 57 c.

(** [isAlphaNum]: an underscore, a digit or an ASCII letter. *)
Definition isAlphaNum (c : ascii) : bool :=
  Ascii.eqb c "_" || between 48 57 c || between 97 122 c || between 65 90 c.

(** Whether the byte [c] occurs in [s]. *)
Fixpoint mentions (c : ascii) (s : string) : bool :=
  match s with
  | EmptyString => false
  | String c' s' => Ascii.eqb c' c || mentions c s'
  end.

(** [s[n:]] *)
Fixpoint skip (n : nat) (s : string) : string :=
  match n, s with
  | O, _ => s
  | S n', String _ s' => skip n' s'
  | S _, EmptyString => EmptyString
  end.

(** [s[:n]] *)
Fixpoint prefix (n : nat) (s : string) : string :=
  match n, s with
  | S n', String c s' => String c (prefix n' s')
  | _, _ => EmptyString
  end.

(** The index of the first closing brace of [s], if there is one. *)
Fixpoint closingBrace (s : string) : option nat :=
  match s with
  | EmptyString => None
  | String c s' => if Ascii.eqb c "}" then Some O else S <$> closingBrace s'
  end.

(** The number of leading bytes of [s] that satisfy [isAlphaNum]. *)
Fixpoint alphaNumPrefix (s : string) : nat :=
  match s with
  | EmptyString => O
  | String c s' => if isAlphaNum c then S (alphaNumPrefix s') else O
  end.

(** [getShellName(s)], for the non-empty [s] that follows a dollar sign:
    the name that begins [s] and the number of bytes consumed. *)
Definition getShellName (s : string) : string * nat :=
  match s with
  | EmptyString => (EmptyString, O)
  | String c body =>
    if Ascii.eqb c "{" then
      match body with
      | String c1 (String c2 _) =>
        if isShellSpecialVar c1 && Ascii.eqb c2 "}" then (String c1 EmptyString, 3%nat)
        else
          match closingBrace body with
          | Some O => (EmptyString, 2%nat)
          | Some i => (prefix i body, (i + 2)%nat)
          | None => (EmptyString, 1%nat)
          end
      | _ =>
        match closingBrace body with
        | Some O => (EmptyString, 2%nat)
        | Some i => (prefix i body, (i + 2)%nat)
        | None => (EmptyString, 1%nat)
        end
      end
    else if isShellSpecialVar c then (String c EmptyString, 1%nat)
    else (prefix (alphaNumPrefix s) s, alphaNumPrefix s)
  end.

(** What [Expand] writes for a dollar sign followed by [name], [w] bytes
    consumed: nothing for bad syntax, the dollar sign when no name follows,
    else the value of the name. *)
Definition expansion (mapping : string → string) (name : string) (w : nat) : string :=
  if decide (name = EmptyString ∧ (0 < w)%nat) then EmptyString
  else if decide (name = EmptyString) then "$"
  else mapping name.

(** [os.Expand(s, mapping)] *)
Equations? Expand (mapping : string → string) (s : string) : string
    by wf (String.length s) lt :=
  Expand mapping EmptyString := EmptyString;
  Expand mapping (String c rest) with
      Ascii.eqb c "$" && negb (bool_decide (rest = EmptyString)) := {
    | true =>
      expansion mapping (getShellName rest).1 (getShellName rest).2 +:+
      Expand mapping (skip (getShellName rest).2 rest)
    | false => String c (Expand mapping rest) }.
Proof.
  assert (Hskip : ∀ n s, (String.length (skip n s) ≤ String.length s)%nat).
  { intros n. induction n as [|n IH]; intros [|c' s]; simpl; try lia.
    specialize (IH s). lia. }
  specialize (Hskip (getShellName rest).2 rest). lia.
Qed.

(** [os.ExpandEnv(s)]: [Expand(s, Getenv)] *)
Definition ExpandEnv (sys : OS) (s : string) : string := Expand (Getenv sys) s.

End os.

(** ** Package config *)
Module config.
Section config.
Context `{!tunnel.Lib}.

(** [AutoRestartConfig] *)
Record AutoRestartConfig : Type := {
  Enabled : bool;
  Interval : Z;
}.

(** [TunnelConfig] *)
Record TunnelConfig : Type := {
  Name : string;
  RemoteHost : string;
  RemotePort : Z;
  LocalPort : Z;
  AutoRestart : AutoRestartConfig;
}.

(** [Config] *)
Record Config : Type := {
  SSH : tunnel.SSHConfig;
  TunnelConfigs : list TunnelConfig;
}.

#[global] Instance AutoRestartConfig_eq_dec : EqDecision AutoRestartConfig.
Proof. solve_decision. Defined.
#[global] Instance TunnelConfig_eq_dec : EqDecision TunnelConfig.
Proof. solve_decision. Defined.

(** The loop of [Validate] from iteration [i] on: [names] and [localPorts]
    are the two local maps, [ts] the entries still to visit. *)
Fixpoint validateTunnels (i : nat) (names : gset string) (localPorts : gset Z)
    (ts : list TunnelConfig) : option error :=
  match ts with
  | [] => None
  | t :: ts' =>
    if decide (Name t = EmptyString) then Some (ErrNameRequired i)
    else if decide (Name t ∈ names) then Some (ErrDuplicateName (Name t))
    else
      let names := {[Name t]} ∪ names in
      if decide (RemoteHost t = EmptyString) then Some (ErrRemoteHostRequired i)
      else if decide (RemotePort t ≤ 0) then Some (ErrRemotePort i)
      else if decide (LocalPort t ≤ 0) then Some (ErrLocalPort i)
      else if decide (LocalPort t ∈ localPorts)
           then Some (ErrDuplicateLocalPort (LocalPort t))
      else
        let localPorts := {[LocalPort t]} ∪ localPorts in
        if Enabled (AutoRestart t) && bool_decide (Interval (AutoRestart t) ≤ 0)
        then Some (ErrInterval i)
        else validateTunnels (S i) names localPorts ts'
  end.

(** method [Validate] of [Config] *)
Definition Validate (c : Config) : option error :=
  match tunnel.SSHConfig_Validate (SSH c) with
  | Some err => Some (ErrSSH err)
  | None =>
    if decide (length (TunnelConfigs c) = 0%nat) then Some ErrNoTunnels
    else validateTunnels 0 ∅ ∅ (TunnelConfigs c)
  end.

(** *** The validation rules in the words of the specification *)

(** "name non-empty; remoteHost non-empty; remotePort > 0; localPort > 0;
    if autoRestart.enabled, autoRestart.interval > 0". *)
Definition entry_ok (t : TunnelConfig) : Prop :=
  Name t ≠ EmptyString ∧ RemoteHost t ≠ EmptyString ∧ 0 < RemotePort t ∧ 0 < LocalPort t ∧
  (Enabled (AutoRestart t) = true → 0 < Interval (AutoRestart t)).

(** Every entry is well formed, names are unique and local ports are
    unique across tunnels. *)
Definition tunnels_ok (ts : list TunnelConfig) : Prop :=
  Forall entry_ok ts ∧ NoDup (Name <$> ts) ∧ NoDup (LocalPort <$> ts).

(** What a failure reported for entry [i] of [ts] says about that entry. *)
Inductive offence (ts : list TunnelConfig) (i : nat) (t : TunnelConfig)
    : error → Prop :=
  | offence_name :
      Name t = EmptyString → offence ts i t (ErrNameRequired i)
  | offence_dup_name (j : nat) (t' : TunnelConfig) :
      (j < i)%nat → ts !! j = Some t' → Name t' = Name t →
      offence ts i t (ErrDuplicateName (Name t))
  | offence_remote_host :
      RemoteHost t = EmptyString → offence ts i t (ErrRemoteHostRequired i)
  | offence_remote_port :
      RemotePort t ≤ 0 → offence ts i t (ErrRemotePort i)
  | offence_local_port :
      LocalPort t ≤ 0 → offence ts i t (ErrLocalPort i)
  | offence_dup_local_port (j : nat) (t' : TunnelConfig) :
      (j < i)%nat → ts !! j = Some t' → LocalPort t' = LocalPort t →
      offence ts i t (ErrDuplicateLocalPort (LocalPort t))
  | offence_interval :
      Enabled (AutoRestart t) = true → Interval (AutoRestart t) ≤ 0 →
      offence ts i t (ErrInterval i).

End config.

(** [Load]. [Unmarshal] is [yaml.Unmarshal] of package [gopkg.in/yaml.v3]
    into a [Config], a library outside the repository. *)
Section load.
Context `{!tunnel.Lib}.
Variable Unmarshal : string → error + Config.

Definition Load (sys : os.OS) (path : string) : error + Config :=
  match os.ReadFile sys path with
  | inl err => inl (ErrReadConfig err)
  | inr data =>
    let expanded := os.ExpandEnv sys data in
    match Unmarshal expanded with
    | inl err => inl (ErrParseConfig err)
    | inr cfg =>
      match Validate cfg with
      | Some err => inl (ErrInvalidConfig err)
      | None => inr cfg
      end
    end
  end.

End load.
End config.

(** ** Package manager *)
Module manager.
Section manager.
Context `{!tunnel.Lib}.
Import tunnel config.

(** A [chan struct{}] that is only ever closed: all that matters is whether
    [close] was called on it. *)
Inductive chan : Type :=
  | chanOpen
  | chanClosed.

#[global] Instance chan_eq_dec : EqDecision chan.
Proof. solve_decision. Defined.

(** [Manager]. A [*tunnel.Tunnel] is held by the [tunnels] map alone, so the
    map stores the tunnel itself; the channel stored in [tunnelDones] under a
    name is the cancel signal of the supervisor goroutine of that tunnel. *)
Record Manager : Type := {
  sshConfig : SSHConfig;
  tunnels : gmap string Tunnel;
  configs : gmap string TunnelConfig;
  tunnelDones : gmap string chan;
  done : chan;
}.

Definition set_sshConfig (ssh : SSHConfig) (m : Manager) : Manager :=
  {| sshConfig := ssh; tunnels := tunnels m; configs := configs m;
     tunnelDones := tunnelDones m; done := done m |}.

Definition set_tunnels (f : gmap string Tunnel → gmap string Tunnel)
    (m : Manager) : Manager :=
  {| sshConfig := sshConfig m; tunnels := f (tunnels m); configs := configs m;
     tunnelDones := tunnelDones m; done := done m |}.

Definition set_configs (f : gmap string TunnelConfig → gmap string TunnelConfig)
    (m : Manager) : Manager :=
  {| sshConfig := sshConfig m; tunnels := tunnels m; configs := f (configs m);
     tunnelDones := tunnelDones m; done := done m |}.

Definition set_tunnelDones (f : gmap string chan → gmap string chan)
    (m : Manager) : Manager :=
  {| sshConfig := sshConfig m; tunnels := tunnels m; configs := configs m;
     tunnelDones := f (tunnelDones m); done := done m |}.

Definition set_done (c : chan) (m : Manager) : Manager :=
  {| sshConfig := sshConfig m; tunnels := tunnels m; configs := configs m;
     tunnelDones := tunnelDones m; done := c |}.

Local Open Scope manager_scope.

(** [close(c)]: closing a closed channel panics. *)
Definition close (c : chan) : M Manager unit :=
  match c with
  | chanOpen => ret ()
  | chanClosed => panic
  end.

(** A call [tun.Method()] on the tunnel registered under [name]: the
    tunnel behind the pointer changes, the error is returned. *)
Definition callTunnel (name : string) (method : Tunnel → Tunnel * option error)
    (tun : Tunnel) : M Manager (option error) :=
  let '(tun', err) := method tun in
  modify (set_tunnels <[name := tun']>);; ret err.

(** The zero value of [config.TunnelConfig], read from a map at a missing key. *)
Definition zeroTunnelConfig : TunnelConfig :=
  {| Name := EmptyString; RemoteHost := EmptyString; RemotePort := 0; LocalPort := 0;
     AutoRestart := {| Enabled := false; Interval := 0 |} |}.

(** *** The methods *)

(** [NewManager] *)
Definition NewManager (ssh : SSHConfig) : Manager :=
  {| sshConfig := ssh; tunnels := ∅; configs := ∅; tunnelDones := ∅;
     done := chanOpen |}.

(** [Add] *)
Definition Add (cfg : TunnelConfig) : M Manager (option error) :=
  m ← get;
  match tunnels m !! Name cfg with
  | Some _ => ret (Some (ErrAlreadyExists (Name cfg)))
  | None =>
    let tun := NewTunnel (sshConfig m) (RemoteHost cfg) (RemotePort cfg) (LocalPort cfg) in
    modify (set_tunnels <[Name cfg := tun]>);;
    modify (set_configs <[Name cfg := cfg]>);;
    ret None
  end.

(** [startAutoRestartForTunnel]. The goroutine it starts is not run here;
    the channel [done] it listens on is the new entry of [tunnelDones]. *)
Definition startAutoRestartForTunnel (name : string) (interval : Z) : M Manager unit :=
  m ← get;
  match tunnelDones m !! name with
  | Some done => close done
  | None => ret ()
  end;;
  modify (set_tunnelDones <[name := chanOpen]>).

(** [stopAutoRestartForTunnel] *)
Definition stopAutoRestartForTunnel (name : string) : M Manager unit :=
  m ← get;
  match tunnelDones m !! name with
  | Some done => close done;; modify (set_tunnelDones (delete name))
  | None => ret ()
  end.

(** [Remove] *)
Definition Remove (name : string) : M Manager (option error) :=
  stopAutoRestartForTunnel name;;
  m ← get;
  match tunnels m !! name with
  | None => ret (Some (ErrNotFound name))
  | Some tun =>
    err ← (if decide (Tunnel_Status tun = StatusRunning)
           then callTunnel name Tunnel_Stop tun
           else ret None);
    match err with
    | Some err => ret (Some (ErrFailedToStop name err))
    | None =>
      modify (set_tunnels (delete name));;
      modify (set_configs (delete name));;
      ret None
    end
  end.

(** [Start] *)
Definition Start (name : string) : M Manager (option error) :=
  m ← get;
  match tunnels m !! name with
  | None => ret (Some (ErrNotFound name))
  | Some tun =>
    let cfg := default zeroTunnelConfig (configs m !! name) in
    err ← callTunnel name Tunnel_Start tun;
    match err with
    | Some err => ret (Some (ErrFailedToStart name err))
    | None =>
      (if Enabled (AutoRestart cfg)
       then startAutoRestartForTunnel name (Interval (AutoRestart cfg))
       else ret ());;
      ret None
    end
  end.

(** [Stop] *)
Definition Stop (name : string) : M Manager (option error) :=
  stopAutoRestartForTunnel name;;
  m ← get;
  match tunnels m !! name with
  | None => ret (Some (ErrNotFound name))
  | Some tun =>
    err ← callTunnel name Tunnel_Stop tun;
    match err with
    | Some err => ret (Some (ErrFailedToStop name err))
    | None => ret None
    end
  end.

(** [Restart] *)
Definition Restart (name : string) : M Manager (option error) :=
  m ← get;
  match tunnels m !! name with
  | None => ret (Some (ErrNotFound name))
  | Some tun =>
    err ← callTunnel name Tunnel_Restart tun;
    match err with
    | Some err => ret (Some (ErrFailedToRestart name err))
    | None => ret None
    end
  end.

(** [List]. Go leaves the order of a [range] over a map unspecified; the
    embedding visits the keys in the order of [map_to_list]. *)
Definition List : M Manager (list string) :=
  m ← get; ret ((map_to_list (tunnels m)).*1).

(** [StartAll] *)
Definition StartAll : M Manager (gmap string error) :=
  names ← List;
  forEachAcc names ∅ (λ errors name,
    err ← Start name;
    match err with
    | Some err => ret (<[name := err]> errors)
    | None => ret errors
    end).

(** [StopAll] *)
Definition StopAll : M Manager (gmap string error) :=
  m ← get;
  forEach (map_to_list (tunnelDones m)) (λ '(name, done),
    close done;; modify (set_tunnelDones (delete name)));;
  m ← get;
  forEachAcc (map_to_list (tunnels m)) ∅ (λ errors '(name, tun),
    err ← callTunnel name Tunnel_Stop tun;
    match err with
    | Some err => ret (<[name := err]> errors)
    | None => ret errors
    end).

(** [tunnelConfigChanged] *)
Definition tunnelConfigChanged (old new : TunnelConfig) : bool :=
  if decide (RemoteHost old ≠ RemoteHost new) then true
  else if decide (RemotePort old ≠ RemotePort new) then true
  else if decide (LocalPort old ≠ LocalPort new) then true
  else if decide (Enabled (AutoRestart old) ≠ Enabled (AutoRestart new)) then true
  else if decide (Interval (AutoRestart old) ≠ Interval (AutoRestart new)) then true
  else false.

(** The local map [newConfigs] of [Reconcile]: a later entry of the list
    replaces an earlier one of the same name. *)
Definition newConfigsOf (l : list TunnelConfig) : gmap string TunnelConfig :=
  foldl (λ acc cfg, <[Name cfg := cfg]> acc) ∅ l.

(** The three loops of [Reconcile], over the keys in the order given. *)
Definition removeLoop (currentNames : list string) (newNames : gset string) : M Manager unit :=
  forEach currentNames (λ name,
    if decide (name ∈ newNames) then ret ()
    else
      logPrintf (LogRemoving name);;
      err ← Remove name;
      match err with
      | Some err => logPrintf (LogRemoveFailed name err)
      | None => ret ()
      end).

Definition addLoop (newConfigs : list (string * TunnelConfig))
    (currentNames : gset string) : M Manager unit :=
  forEach newConfigs (λ '(name, cfg),
    if decide (name ∈ currentNames) then ret ()
    else
      logPrintf (LogAdding name);;
      err ← Add cfg;
      match err with
      | Some err => logPrintf (LogAddFailed name err)
      | None =>
        err ← Start name;
        match err with
        | Some err => logPrintf (LogStartFailed name err)
        | None => ret ()
        end
      end).

Definition restartLoop (newConfigs : list (string * TunnelConfig))
    (currentNames : gset string) : M Manager unit :=
  forEach newConfigs (λ '(name, newCfg),
    if decide (name ∈ currentNames) then
      m ← get;
      match configs m !! name with
      | Some oldCfg =>
        if tunnelConfigChanged oldCfg newCfg then
          logPrintf (LogChangedRestarting name);;
          modify (set_configs <[name := newCfg]>);;
          err ← Restart name;
          match err with
          | Some err => logPrintf (LogRestartFailed name err)
          | None => ret ()
          end
        else ret ()
      | None => ret ()
      end
    else ret ()).

(** [Reconcile] *)
Definition Reconcile (newConfig : Config) : M Manager (option error) :=
  modify (set_sshConfig (SSH newConfig));;
  names ← List;
  let currentNames : gset string := list_to_set names in
  let newNames : gset string := list_to_set (Name <$> TunnelConfigs newConfig) in
  let newConfigs := newConfigsOf (TunnelConfigs newConfig) in
  removeLoop (elements currentNames) newNames;;
  addLoop (map_to_list newConfigs) currentNames;;
  restartLoop (map_to_list newConfigs) currentNames;;
  ret None.

(** [Close] *)
Definition Close : M Manager (option error) :=
  m ← get;
  close (done m);;
  modify (set_done chanClosed);;
  errors ← StopAll;
  if decide (0 < size errors)%nat
  then ret (Some (ErrClosing (map_to_list errors)))
  else ret None.

(** *** Invariants of the manager state *)

Implicit Types (m : Manager) (name k : string) (cfg : TunnelConfig).

(** Every cancel channel held in [tunnelDones] is open: the methods close a
    channel only as they delete or replace its entry. *)
Definition dones_open m : Prop :=
  ∀ k c, tunnelDones m !! k = Some c → c = chanOpen.

(** Section 3 of the specification: "every entry in [autoRestartCancel] has
    a matching tunnel; every tunnel has a matching config". *)
Definition maps_consistent m : Prop :=
  dom (tunnelDones m) ⊆ dom (tunnels m) ∧ dom (tunnels m) = dom (configs m).

(** A config is stored under its own name. *)
Definition configs_named m : Prop :=
  ∀ k cfg, configs m !! k = Some cfg → Name cfg = k.

Definition wf m : Prop := maps_consistent m ∧ configs_named m ∧ dones_open m.

(** *** The methods, case by case *)

(** What [Add] does. *)
Definition Add_result cfg m : outcome Manager (option error) :=
  match tunnels m !! Name cfg with
  | Some _ => Done (Some (ErrAlreadyExists (Name cfg))) m []
  | None =>
    let tun := NewTunnel (sshConfig m) (RemoteHost cfg) (RemotePort cfg) (LocalPort cfg) in
    Done None (set_configs <[Name cfg := cfg]> (set_tunnels <[Name cfg := tun]> m)) []
  end.

(** What [Remove] does when the cancel channels are open. *)
Definition Remove_result name m : outcome Manager (option error) :=
  let m1 := set_tunnelDones (delete name) m in
  match tunnels m !! name with
  | None => Done (Some (ErrNotFound name)) m1 []
  | Some tun =>
    if decide (Tunnel_Status tun = StatusRunning) then
      match Tunnel_Stop tun with
      | (tun', Some err) =>
        Done (Some (ErrFailedToStop name err)) (set_tunnels <[name := tun']> m1) []
      | (tun', None) =>
        Done None (set_configs (delete name) (set_tunnels (delete name) m1)) []
      end
    else Done None (set_configs (delete name) (set_tunnels (delete name) m1)) []
  end.

(** What [Start] does when the cancel channels are open. *)
Definition Start_result name m : outcome Manager (option error) :=
  match tunnels m !! name with
  | None => Done (Some (ErrNotFound name)) m []
  | Some tun =>
    let m1 := set_tunnels <[name := (Tunnel_Start tun).1]> m in
    match (Tunnel_Start tun).2 with
    | Some err => Done (Some (ErrFailedToStart name err)) m1 []
    | None =>
      if Enabled (AutoRestart (default zeroTunnelConfig (configs m !! name)))
      then Done None (set_tunnelDones <[name := chanOpen]> m1) []
      else Done None m1 []
    end
  end.

(** What [Stop] does when the cancel channels are open. *)
Definition Stop_result name m : outcome Manager (option error) :=
  let m1 := set_tunnelDones (delete name) m in
  match tunnels m !! name with
  | None => Done (Some (ErrNotFound name)) m1 []
  | Some tun =>
    Done (ErrFailedToStop name <$> (Tunnel_Stop tun).2)
         (set_tunnels <[name := (Tunnel_Stop tun).1]> m1) []
  end.

(** What [Restart] does. *)
Definition Restart_result name m : outcome Manager (option error) :=
  match tunnels m !! name with
  | None => Done (Some (ErrNotFound name)) m []
  | Some tun =>
    Done (ErrFailedToRestart name <$> (Tunnel_Restart tun).2)
         (set_tunnels <[name := (Tunnel_Restart tun).1]> m) []
  end.

(** What stays as it is while the loops of [Reconcile] run. *)
Definition steady (ssh : SSHConfig) (d : chan) m : Prop :=
  dones_open m ∧ sshConfig m = ssh ∧ done m = d.

(** *** [Reconcile], name by name *)

(** What the three maps hold for one name. *)
Record entry : Type := Entry {
  e_tunnel : option Tunnel;
  e_config : option TunnelConfig;
  e_done : option chan;
}.

Definition view m k : entry :=
  Entry (tunnels m !! k) (configs m !! k) (tunnelDones m !! k).

(** The entry of a name after [Remove]. *)
Definition removed (e : entry) : entry :=
  match e_tunnel e with
  | None => Entry None (e_config e) None
  | Some tun =>
    if decide (Tunnel_Status tun = StatusRunning) then
      match Tunnel_Stop tun with
      | (tun', Some _) => Entry (Some tun') (e_config e) None
      | (_, None) => Entry None None None
      end
    else Entry None None None
  end.

(** The entry of the name of [cfg] after [Add(cfg)] and, if that
    succeeded, [Start]. *)
Definition added_started (ssh : SSHConfig) cfg (e : entry) : entry :=
  match e_tunnel e with
  | Some _ => e
  | None =>
    let tun := NewTunnel ssh (RemoteHost cfg) (RemotePort cfg) (LocalPort cfg) in
    Entry (Some (Tunnel_Start tun).1) (Some cfg)
      (match (Tunnel_Start tun).2 with
       | None => if Enabled (AutoRestart cfg) then Some chanOpen else e_done e
       | Some _ => e_done e
       end)
  end.

(** The entry of a name after the comparison of its stored config with
    [newCfg] and, if they differ, the update and [Restart]. *)
Definition restarted (newCfg : TunnelConfig) (e : entry) : entry :=
  match e_config e with
  | Some oldCfg =>
    if tunnelConfigChanged oldCfg newCfg
    then Entry ((λ tun, (Tunnel_Restart tun).1) <$> e_tunnel e) (Some newCfg) (e_done e)
    else e
  | None => e
  end.

(** The entry of name [k] after [Reconcile(newConfig)] on [m]. *)
Definition reconciled (newConfig : Config) m k : entry :=
  match newConfigsOf (TunnelConfigs newConfig) !! k, tunnels m !! k with
  | None, Some _ => removed (view m k)
  | None, None => view m k
  | Some cfg, None => added_started (SSH newConfig) cfg (view m k)
  | Some cfg, Some _ => restarted cfg (view m k)
  end.

(** The invariants, for one name. *)
Definition entry_wf k (e : entry) : Prop :=
  (is_Some (e_done e) → is_Some (e_tunnel e)) ∧
  (is_Some (e_tunnel e) ↔ is_Some (e_config e)) ∧
  (∀ cfg, e_config e = Some cfg → Name cfg = k) ∧
  (∀ c, e_done e = Some c → c = chanOpen).

(** *** Sequences of calls *)

Inductive Op : Type :=
  | OpAdd (cfg : TunnelConfig)
  | OpRemove (name : string)
  | OpStart (name : string)
  | OpStop (name : string)
  | OpRestart (name : string)
  | OpStartAll
  | OpStopAll
  | OpReconcile (newConfig : Config)
  | OpClose.

(** One call, its result dropped. *)
Definition exec (op : Op) : M Manager unit :=
  match op with
  | OpAdd cfg => Add cfg;; ret ()
  | OpRemove name => Remove name;; ret ()
  | OpStart name => Start name;; ret ()
  | OpStop name => Stop name;; ret ()
  | OpRestart name => Restart name;; ret ()
  | OpStartAll => StartAll;; ret ()
  | OpStopAll => StopAll;; ret ()
  | OpReconcile newConfig => Reconcile newConfig;; ret ()
  | OpClose => Close;; ret ()
  end.

Definition execAll (ops : list Op) : M Manager unit := forEach ops exec.

(** *** The read-only methods and the supervisor *)




(** The body of the goroutine of [startAutoRestartForTunnel] on one tick of
    its ticker. The result tells whether the goroutine goes on ([false]:
    the tunnel is gone and the goroutine returns). *)
Definition supervisorTick (name : string) : M Manager bool :=
  m ← get;
  match tunnels m !! name with
  | None => ret false
  | Some tun =>
    let status := Tunnel_Status tun in
    let lastErr := Tunnel_LastError tun in
    if bool_decide (status = StatusError) || negb (bool_decide (lastErr = None))
    then Restart name;; ret true
    else ret true
  end.

(** A call of a method, or a tick of the supervisor of a name. *)
Inductive Step : Type :=
  | Call (op : Op)
  | Tick (name : string).

Definition execStep (st : Step) : M Manager unit :=
  match st with
  | Call op => exec op
  | Tick name => supervisorTick name;; ret ()
  end.

Definition execSteps (sts : list Step) : M Manager unit := forEach sts execStep.


(** What [Start] leaves under its name and the error it returns, from what
    was there. *)
Definition started name (e : entry) : entry :=
  match e_tunnel e with
  | None => e
  | Some tun =>
    Entry (Some (Tunnel_Start tun).1) (e_config e)
      (match (Tunnel_Start tun).2 with
       | Some _ => e_done e
       | None =>
         if Enabled (AutoRestart (default zeroTunnelConfig (e_config e)))
         then Some chanOpen else e_done e
       end)
  end.

Definition startError name (e : entry) : option error :=
  match e_tunnel e with
  | None => Some (ErrNotFound name)
  | Some tun => ErrFailedToStart name <$> (Tunnel_Start tun).2
  end.

End manager.
End manager.

(** ** Package watcher *)
Module watcher.
Section watcher.
Context `{!tunnel.Lib}.
Import config manager.
Local Open Scope manager_scope.

(** [Watcher], as far as [reload] reads it. The field [manager] points to
    the manager on which [reload] runs. *)
Record Watcher : Type := {
  configPath : string;
}.

(** [reload] *)
Definition reload (Unmarshal : string → error + Config) (sys : os.OS)
    (w : Watcher) : M Manager unit :=
  match Load Unmarshal sys (configPath w) with
  | inl err => logPrintf (LogInvalidConfig err)
  | inr newConfig =>
    err ← Reconcile newConfig;
    match err with
    | Some err => logPrintf (LogReconcileFailed err)
    | None => ret ()
    end
  end.

End watcher.
End watcher.

(** ** Command conduit: function main *)
Module cmd.
Section cmd.
Context `{!tunnel.Lib}.
Import tunnel config manager.
Local Open Scope manager_scope.

(** The lines [main] prints between the creation of the manager and the
    creation of the watcher. *)
Inductive Line : Type :=
  (* "conduit: failed to add tunnel %s: %v" *)
  | LineAddFailed (name : string) (err : error)
  (* "conduit: added tunnel %s (%s:%d -> localhost:%d)" *)
  | LineAdded (name remoteHost : string) (remotePort localPort : Z)
  (* "conduit: failed to start tunnel %s: %v" *)
  | LineStartFailed (name : string) (err : error)
  (* "conduit: tunnel %s status: %s" *)
  | LineStatus (name : string) (status : Status).

(** The loop of [main] over [cfg.TunnelConfigs]; [lines] collects what it
    prints. *)
Definition addTunnels (tunnelConfigs : list TunnelConfig) : M Manager (list Line) :=
  forEachAcc tunnelConfigs [] (λ lines tunnelCfg,
    err ← Add tunnelCfg;
    match err with
    | Some err => ret (lines ++ [LineAddFailed (Name tunnelCfg) err])
    | None =>
      ret (lines ++ [LineAdded (Name tunnelCfg) (RemoteHost tunnelCfg)
                       (RemotePort tunnelCfg) (LocalPort tunnelCfg)])
    end).

(** [main] from [mgr := manager.NewManager(&cfg.SSH)] to the status lines:
    the manager it leaves and the lines it prints. *)
Definition startTunnels (cfg : Config) : outcome Manager (list Line) :=
  (lines ← addTunnels (TunnelConfigs cfg);
   errors ← StartAll;
   m ← get;
   ret (lines
        ++ ((λ '(name, err), LineStartFailed name err) <$> map_to_list errors)
        ++ ((λ '(name, tun), LineStatus name (Tunnel_Status tun))
              <$> map_to_list (tunnels m))))
  (NewManager (SSH cfg)).

End cmd.
End cmd.

(** ** Manager states for the examples, on the tunnel library of the examples *)
Module scenarios.
Import tunnel config manager.
Local Existing Instance tunnel_model.lib.

(** Tunnel [a], restarted automatically every 100 ms (a [time.Duration]
    counts nanoseconds). *)
Definition cfgA : TunnelConfig :=
  {| Name := "a"; RemoteHost := "db-a"; RemotePort := 5432; LocalPort := 15432;
     AutoRestart := {| Enabled := true; Interval := 100000000 |} |}.

(** Tunnel [b], without automatic restart. *)
Definition cfgB : TunnelConfig :=
  {| Name := "b"; RemoteHost := "db-b"; RemotePort := 1521; LocalPort := 11521;
     AutoRestart := {| Enabled := false; Interval := 0 |} |}.

(** The tunnel of [cfg] as [Add] creates it. *)
Definition fresh (cfg : TunnelConfig) : tunnel_model.Tunnel :=
  tunnel_model.NewTunnel tunnel_model.testSSH
    (RemoteHost cfg) (RemotePort cfg) (LocalPort cfg).

(** The tunnel of [cfg], running, whose next attempt to stop fails. *)
Definition stuck (cfg : TunnelConfig) : tunnel_model.Tunnel :=
  tunnel_model.with_stopFails [true]
    (tunnel_model.with_status StatusRunning None (fresh cfg)).

(** After [NewManager(ssh)]. *)
Definition mgrEmpty : Manager := NewManager tunnel_model.testSSH.

(** After [NewManager(ssh); Add(cfgA)]. *)
Definition mgrA : Manager :=
  {| sshConfig := tunnel_model.testSSH;
     tunnels := {[ "a" := fresh cfgA ]};
     configs := {[ "a" := cfgA ]};
     tunnelDones := ∅;
     done := chanOpen |}.

(** After [NewManager(ssh); Add(cfgA); Start("a")], at a time when the
    next attempt to stop tunnel [a] fails. *)
Definition mgrStuck : Manager :=
  {| sshConfig := tunnel_model.testSSH;
     tunnels := {[ "a" := stuck cfgA ]};
     configs := {[ "a" := cfgA ]};
     tunnelDones := {[ "a" := chanOpen ]};
     done := chanOpen |}.

(** A supervisor entry is left under a name that has no tunnel. *)
Definition mgrOrphan : Manager :=
  {| sshConfig := tunnel_model.testSSH;
     tunnels := ∅;
     configs := ∅;
     tunnelDones := {[ "a" := chanOpen ]};
     done := chanOpen |}.

(** The desired configuration with the single tunnel [b]. *)
Definition onlyB : Config :=
  {| SSH := tunnel_model.testSSH; TunnelConfigs := [cfgB] |}.

(** A decoder that knows one document: [doc] decodes to [cfg], every
    other text is rejected. *)
Definition decodeOf (doc : string) (cfg : Config) (text : string) : error + Config :=
  if decide (text = doc) then inr cfg else inl (LibError "yaml: cannot decode").

(** Scenario 5 of the specification: the file on disk holds a document with
    an empty list of tunnels. *)
Definition noTunnels : Config :=
  {| SSH := tunnel_model.testSSH; TunnelConfigs := [] |}.

Definition diskNoTunnels : os.OS :=
  {| os.files := {[ "config.yaml" := "tunnels: []" ]}; os.environ := ∅ |}.

Definition theWatcher : watcher.Watcher := {| watcher.configPath := "config.yaml" |}.

(** Tunnel [a] of [cfgA], moved to another remote host. *)
Definition cfgA2 : TunnelConfig :=
  {| Name := "a"; RemoteHost := "db-a2"; RemotePort := 5432; LocalPort := 15432;
     AutoRestart := {| Enabled := true; Interval := 100000000 |} |}.

(** The desired configurations with the single tunnel [a], as it is and
    moved, and with both tunnels. *)
Definition onlyA : Config :=
  {| SSH := tunnel_model.testSSH; TunnelConfigs := [cfgA] |}.

Definition movedA : Config :=
  {| SSH := tunnel_model.testSSH; TunnelConfigs := [cfgA2] |}.

Definition bothAB : Config :=
  {| SSH := tunnel_model.testSSH; TunnelConfigs := [cfgA; cfgB] |}.

(** The name [a] twice. *)
Definition twiceA : Config :=
  {| SSH := tunnel_model.testSSH; TunnelConfigs := [cfgA; cfgA2] |}.

(** The file on disk holds a document with the tunnels [a] and [b]; the
    environment sets one variable, whose value has a dollar sign. *)
Definition diskAB : os.OS :=
  {| os.files := {[ "config.yaml" := "tunnels: [a, b]" ]};
     os.environ := {[ "SSH_PASSWORD" := "pa$$word" ]} |}.

(** After [NewManager(ssh); Add(cfgA); Start("a")]: tunnel [a] runs and
    is supervised. *)
Definition mgrRunning : Manager :=
  {| sshConfig := tunnel_model.testSSH;
     tunnels := {[ "a" := tunnel_model.with_status StatusRunning None (fresh cfgA) ]};
     configs := {[ "a" := cfgA ]};
     tunnelDones := {[ "a" := chanOpen ]};
     done := chanOpen |}.

End scenarios.

(** * Properties *)

Ltac run := unfold bind, get, modify, ret, logPrintf, panic, manager.close, manager.callTunnel; simpl.

(** ** Validation *)
Section validate_facts.
Context `{!tunnel.Lib}.
Import config.

Implicit Types (t : TunnelConfig) (ts : list TunnelConfig).

Lemma validateTunnels_None i (names : gset string) (ports : gset Z) ts :
  validateTunnels i names ports ts = None ↔
  tunnels_ok ts ∧
  (∀ t, t ∈ ts → Name t ∉ names) ∧ (∀ t, t ∈ ts → LocalPort t ∉ ports).
Proof.
  unfold tunnels_ok.
  revert i names ports. induction ts as [|t ts IH]; intros i names ports.
  { split; [intros _|done]. repeat split; try constructor; set_solver. }
  cbn [validateTunnels].
  rewrite !fmap_cons, Forall_cons, !NoDup_cons. unfold entry_ok at 1.
  setoid_rewrite elem_of_cons. setoid_rewrite list_elem_of_fmap.
  assert (Hrec : validateTunnels (S i) ({[Name t]} ∪ names)
                   ({[LocalPort t]} ∪ ports) ts = None ↔
                 (Forall entry_ok ts ∧ NoDup (Name <$> ts) ∧ NoDup (LocalPort <$> ts)) ∧
                 (∀ t', t' ∈ ts → Name t' ≠ Name t ∧ Name t' ∉ names) ∧
                 (∀ t', t' ∈ ts → LocalPort t' ≠ LocalPort t ∧ LocalPort t' ∉ ports)).
  { rewrite IH. setoid_rewrite not_elem_of_union.
    setoid_rewrite not_elem_of_singleton. done. }
  repeat case_decide;
    try (split; [done|]; intros ((((? & ? & ? & ? & ?) & ?) & ? & ?) & Hn & Hp);
         first [ done | lia | by exfalso; eapply Hn; [left|] | by exfalso; eapply Hp; [left|] ]).
  all: destruct (Enabled (AutoRestart t)) eqn:Hen; cbn [andb];
    [case_bool_decide; cbn [andb]|].
  all: try (split; [done|]; intros ((((? & ? & ? & ? & Hi) & ?) & ? & ?) & _);
            specialize (Hi eq_refl); lia).
  all: rewrite Hrec; clear Hrec IH; split.
  all: try (intros ((? & ? & ?) & Hn & Hp); split_and!; try done; try lia;
            first [ by intros (x & Heq & Hx); destruct (Hn x Hx) as [Hne _]; apply Hne
                  | by intros (x & Heq & Hx); destruct (Hp x Hx) as [Hne _]; apply Hne
                  | by intros t' [->|Hin]; [|apply Hn]
                  | by intros t' [->|Hin]; [|apply Hp] ]).
  all: intros ((((? & ? & ? & ? & Hi) & ?) & [Hn1 ?] & [Hp1 ?]) & Hn & Hp);
    split_and!; try done.
  all: intros t' Hin; split;
    [intros Heq; first [by apply Hn1; eauto|by apply Hp1; eauto]
    |first [by apply Hn; right|by apply Hp; right]].
Qed.

Lemma validateTunnels_Some (all : list TunnelConfig) i
    (names : gset string) (ports : gset Z) e :
  (∀ x, x ∈ names → ∃ j t', (j < i)%nat ∧ all !! j = Some t' ∧ Name t' = x) →
  (∀ p, p ∈ ports → ∃ j t', (j < i)%nat ∧ all !! j = Some t' ∧ LocalPort t' = p) →
  validateTunnels i names ports (drop i all) = Some e →
  ∃ k t, all !! k = Some t ∧ offence all k t e.
Proof.
  remember (drop i all) as ts eqn:Hts.
  revert i names ports Hts. induction ts as [|t ts IH]; intros i names ports Hts Hn Hp.
  { done. }
  assert (Hi : all !! i = Some t).
  { rewrite <- (Nat.add_0_r i), <- lookup_drop, <- Hts. done. }
  assert (Hts' : ts = drop (S i) all).
  { rewrite (drop_S _ _ _ Hi) in Hts. by injection Hts. }
  cbn [validateTunnels].
  repeat case_decide;
    try (intros [= <-]; exists i, t; split; [done|];
         first [ by constructor
               | match goal with Hx : _ ∈ names |- _ =>
                   destruct (Hn _ Hx) as (j & t' & ? & ? & ?) end; by econstructor
               | match goal with Hx : _ ∈ ports |- _ =>
                   destruct (Hp _ Hx) as (j & t' & ? & ? & ?) end; by econstructor ]);
    (destruct (Enabled (AutoRestart t)) eqn:Hen; cbn [andb];
       [case_bool_decide; cbn [andb]|]);
    try (intros [= <-]; exists i, t; split; [done|]; by constructor);
    (apply IH; [done| |]);
    (intros x [->%elem_of_singleton|Hx]%elem_of_union;
       [by exists i, t; split; [lia|]|]);
    first [destruct (Hn _ Hx) as (j & t' & ? & ? & ?)
          |destruct (Hp _ Hx) as (j & t' & ? & ? & ?)];
    exists j, t'; (split; [lia|done]).
Qed.

(** C7, as amended. [Validate] accepts a configuration exactly when the SSH
    block is accepted, there is at least one tunnel, and every tunnel entry
    has a non-empty name unique among tunnels, a non-empty remoteHost,
    remotePort > 0, localPort > 0 unique across tunnels and, when
    autoRestart.enabled, autoRestart.interval > 0. A failure is the SSH
    error, the missing-tunnels error, or it names an entry of the list that
    breaks a rule: by its index, by its name when the name repeats an
    earlier one, by its local port when the port repeats an earlier one. *)
Theorem Validate_characterised (c : Config) :
  (Validate c = None ↔
     tunnel.SSHConfig_Validate (SSH c) = None ∧
     TunnelConfigs c ≠ [] ∧
     tunnels_ok (TunnelConfigs c)) ∧
  (∀ e, Validate c = Some e →
     (∃ cause, tunnel.SSHConfig_Validate (SSH c) = Some cause ∧ e = ErrSSH cause) ∨
     (TunnelConfigs c = [] ∧ e = ErrNoTunnels) ∨
     (∃ i t, TunnelConfigs c !! i = Some t ∧ offence (TunnelConfigs c) i t e)).
Proof.
  unfold Validate. destruct (tunnel.SSHConfig_Validate (SSH c)) as [cause|] eqn:Hssh.
  { split; [split; [done|by intros [? _]]|]. intros e [= <-]. left. eauto. }
  case_decide as Hlen.
  { apply length_zero_iff_nil in Hlen. split; [split; [done|by intros (_ & ? & _)]|].
    intros e [= <-]. right; left. done. }
  split.
  - rewrite validateTunnels_None. split.
    + intros (? & _). split_and!; try done. intros Heq. by rewrite Heq in Hlen.
    + intros (_ & _ & ?). split; [done|]. split; intros; set_solver.
  - intros e He. right; right.
    eapply (validateTunnels_Some (TunnelConfigs c) 0 ∅ ∅); [set_solver|set_solver|].
    by rewrite drop_0.
Qed.

End validate_facts.

(** ** Environment variables in the config file *)
Section expand_facts.
Import os.

Implicit Types (s pre name post : string) (c : ascii) (f : string → string).

Lemma Expand_cons f c rest :
  Expand f (String c rest) =
  if Ascii.eqb c "$" && negb (bool_decide (rest = EmptyString))
  then expansion f (getShellName rest).1 (getShellName rest).2 +:+
       Expand f (skip (getShellName rest).2 rest)
  else String c (Expand f rest).
Proof.
  simp Expand.
  destruct (Ascii.eqb c "$" && negb (bool_decide (rest = EmptyString))); by simp Expand.
Qed.

Lemma append_cons c s1 s2 : String c s1 +:+ s2 = String c (s1 +:+ s2).
Proof. done. Qed.

Lemma append_nil s : EmptyString +:+ s = s.
Proof. done. Qed.

Lemma append_snoc name c post : (name +:+ String c EmptyString) +:+ post = name +:+ String c post.
Proof.
  induction name as [|c' name IH]; [done|]. by rewrite !append_cons, IH.
Qed.

Lemma length_snoc name c :
  String.length (name +:+ String c EmptyString) = S (String.length name).
Proof.
  induction name as [|c' name IH]; [done|]. rewrite append_cons. simpl. by rewrite IH.
Qed.

Lemma Expand_literal f pre s :
  mentions "$" pre = false → Expand f (pre +:+ s) = pre +:+ Expand f s.
Proof.
  induction pre as [|c pre IH]; [done|]. cbn [mentions].
  intros [Hc Hpre]%orb_false_elim.
  rewrite !append_cons, Expand_cons, Hc. cbn [andb]. by rewrite IH.
Qed.

Lemma closingBrace_app name post :
  mentions "}" name = false →
  closingBrace (name +:+ String "}" post) = Some (String.length name).
Proof.
  induction name as [|c name IH]; [done|]. cbn [mentions].
  intros [Hc Hname]%orb_false_elim.
  rewrite append_cons. cbn [closingBrace]. rewrite Hc, IH by done. done.
Qed.

Lemma prefix_app name s : prefix (String.length name) (name +:+ s) = name.
Proof.
  induction name as [|c name IH]; [by destruct s|].
  rewrite append_cons. simpl. by rewrite IH.
Qed.

Lemma skip_app name s : skip (String.length name) (name +:+ s) = s.
Proof.
  induction name as [|c name IH]; [done|]. rewrite append_cons. simpl. done.
Qed.

Lemma getShellName_braced name post :
  name ≠ EmptyString → mentions "}" name = false →
  getShellName (String "{" (name +:+ String "}" post)) =
    (name, (String.length name + 2)%nat).
Proof.
  intros Hne Hname. pose proof (closingBrace_app name post Hname) as Hclose.
  pose proof (prefix_app name (String "}" post)) as Hpre.
  destruct name as [|c1 name]; [done|].
  unfold getShellName. cbn [Ascii.eqb Bool.eqb].
  rewrite append_cons in *.
  destruct name as [|c2 name].
  - rewrite append_nil in *. cbn [Ascii.eqb Bool.eqb]. rewrite andb_true_r.
    destruct (isShellSpecialVar c1); [done|].
    rewrite Hclose, Hpre. done.
  - rewrite append_cons in *.
    cbn [mentions] in Hname. apply orb_false_elim in Hname as [_ Hname].
    apply orb_false_elim in Hname as [Hc2 _]. rewrite Hc2, andb_false_r.
    rewrite Hclose, Hpre. done.
Qed.

Lemma alphaNumPrefix_app name post :
  alphaNumPrefix name = String.length name → alphaNumPrefix post = O →
  alphaNumPrefix (name +:+ post) = String.length name.
Proof.
  induction name as [|c name IH]; [done|]. rewrite append_cons. simpl.
  destruct (isAlphaNum c); [|done]. intros [= Hname] Hpost. by rewrite IH.
Qed.

Lemma isAlphaNum_not_brace c : isAlphaNum c = true → Ascii.eqb c "{" = false.
Proof.
  destruct c as [[] [] [] [] [] [] [] []]; vm_compute; congruence.
Qed.

Lemma getShellName_bare c name post :
  isAlphaNum c = true → isShellSpecialVar c = false →
  alphaNumPrefix name = String.length name → alphaNumPrefix post = O →
  getShellName (String c name +:+ post) =
    (String c name, String.length (String c name)).
Proof.
  intros Hc Hsp Hname Hpost.
  pose proof (alphaNumPrefix_app (String c name) post) as Hlen.
  pose proof (prefix_app (String c name) post) as Hpre.
  rewrite append_cons in *.
  unfold getShellName. rewrite (isAlphaNum_not_brace c Hc), Hsp.
  rewrite Hlen; [by rewrite Hpre|simpl; by rewrite Hc, Hname|done].
Qed.

Lemma Expand_braced f pre name post :
  mentions "$" pre = false → name ≠ EmptyString → mentions "}" name = false →
  f name = EmptyString →
  Expand f (pre +:+ String "$" (String "{" (name +:+ String "}" post))) =
  pre +:+ Expand f post.
Proof.
  intros Hpre Hne Hname Hf. rewrite Expand_literal by done. f_equal.
  rewrite Expand_cons. cbn [Ascii.eqb Bool.eqb andb].
  rewrite bool_decide_eq_false_2 by done. cbn [negb].
  rewrite getShellName_braced by done. cbn [fst snd].
  unfold expansion. rewrite decide_False by (by intros [? _]).
  rewrite decide_False by done. rewrite Hf, append_nil.
  replace (String.length name + 2)%nat with
    (S (String.length (name +:+ String "}" EmptyString)))
    by (rewrite length_snoc; lia).
  cbn [skip]. by rewrite <- (append_snoc name "}" post), skip_app.
Qed.

Lemma Expand_bare f pre c name post :
  mentions "$" pre = false →
  isAlphaNum c = true → isShellSpecialVar c = false →
  alphaNumPrefix name = String.length name → alphaNumPrefix post = O →
  f (String c name) = EmptyString →
  Expand f (pre +:+ String "$" (String c name +:+ post)) = pre +:+ Expand f post.
Proof.
  intros Hpre Hc Hsp Hname Hpost Hf. rewrite Expand_literal by done. f_equal.
  rewrite Expand_cons. cbn [Ascii.eqb Bool.eqb andb].
  rewrite bool_decide_eq_false_2 by done. cbn [negb].
  rewrite getShellName_bare by done. cbn [fst snd].
  unfold expansion. rewrite decide_False by (by intros [? _]).
  rewrite decide_False by done. rewrite Hf, append_nil.
  by rewrite skip_app.
Qed.

End expand_facts.

(** ** Rules for programs *)
Section program_rules.
Context {S : Type}.

Lemma total_ret {A} (P : S → Prop) (Q : A → S → Prop) (a : A) :
  (∀ s, P s → Q a s) → total P (ret a) Q.
Proof. intros HQ s Hs. exists a, s, []. eauto. Qed.

Lemma total_bind {A B} (P : S → Prop) (R : A → S → Prop) (Q : B → S → Prop)
    (c : M S A) (k : A → M S B) :
  total P c R → (∀ a, total (R a) (k a) Q) → total P (bind c k) Q.
Proof.
  intros Hc Hk s Hs. destruct (Hc s Hs) as (a & s1 & out1 & Hrun1 & HR).
  destruct (Hk a s1 HR) as (b & s2 & out2 & Hrun2 & HQ).
  exists b, s2, (out1 ++ out2). unfold bind. by rewrite Hrun1, Hrun2.
Qed.

Lemma total_forEach {A} (I : S → Prop) (l : list A) (body : A → M S unit) :
  (∀ x, x ∈ l → total I (body x) (λ _, I)) →
  total I (forEach l body) (λ _, I).
Proof.
  induction l as [|x l IH]; intros Hbody; simpl.
  { by apply total_ret. }
  eapply total_bind; [apply Hbody; left|].
  intros ?. apply IH. intros y Hy. apply Hbody. by right.
Qed.

Lemma total_forEachAcc {A B} (I : S → Prop) (l : list A) (acc : B)
    (body : B → A → M S B) :
  (∀ acc x, x ∈ l → total I (body acc x) (λ _, I)) →
  total I (forEachAcc l acc body) (λ _, I).
Proof.
  revert acc. induction l as [|x l IH]; intros acc Hbody; simpl.
  { by apply total_ret. }
  eapply total_bind; [apply Hbody; left|].
  intros acc'. apply IH. intros acc'' y Hy. apply Hbody. by right.
Qed.

(** A loop whose body does nothing on every element does nothing. *)
Lemma forEach_skip {A} (l : list A) (body : A → M S unit) (s : S) :
  (∀ x, x ∈ l → body x s = Done () s []) → forEach l body s = Done () s [].
Proof.
  induction l as [|x l IH]; intros Hbody; simpl; [done|].
  unfold bind. rewrite Hbody by left. rewrite IH; [done|].
  intros y Hy. apply Hbody. by right.
Qed.

End program_rules.

(** ** The manager: single operations *)
Section manager_facts.
Context `{!tunnel.Lib}.
Import tunnel config manager.
Local Open Scope manager_scope.

Implicit Types (m : Manager) (name k : string) (cfg : TunnelConfig).

Lemma Manager_eq m1 m2 :
  sshConfig m1 = sshConfig m2 → tunnels m1 = tunnels m2 → configs m1 = configs m2 →
  tunnelDones m1 = tunnelDones m2 → done m1 = done m2 → m1 = m2.
Proof. destruct m1, m2; simpl; congruence. Qed.

Lemma stopAutoRestartForTunnel_open name m :
  dones_open m →
  stopAutoRestartForTunnel name m = Done () (set_tunnelDones (delete name) m) [].
Proof.
  intros Hopen. unfold stopAutoRestartForTunnel. run.
  destruct (tunnelDones m !! name) as [c|] eqn:Hc.
  - rewrite (Hopen _ _ Hc). done.
  - simpl. f_equal. apply Manager_eq; simpl; try done. by rewrite delete_id.
Qed.

Lemma startAutoRestartForTunnel_open name interval m :
  dones_open m →
  startAutoRestartForTunnel name interval m =
    Done () (set_tunnelDones <[name := chanOpen]> m) [].
Proof.
  intros Hopen. unfold startAutoRestartForTunnel. run.
  destruct (tunnelDones m !! name) as [c|] eqn:Hc; [|done].
  by rewrite (Hopen _ _ Hc).
Qed.

Lemma Add_eq cfg m : Add cfg m = Add_result cfg m.
Proof. unfold Add, Add_result. run. by destruct (tunnels m !! Name cfg). Qed.

Lemma Remove_open name m :
  dones_open m → Remove name m = Remove_result name m.
Proof.
  intros Hopen. unfold Remove, Remove_result, bind at 1.
  rewrite stopAutoRestartForTunnel_open by done. run.
  destruct (tunnels m !! name) as [tun|] eqn:Htun; [|done].
  case_decide; [|done]. run.
  destruct (Tunnel_Stop tun) as [tun' [err|]]; simpl; [done|].
  f_equal. apply Manager_eq; simpl; try done. by rewrite delete_insert_eq.
Qed.

Lemma Stop_open name m :
  dones_open m → manager.Stop name m = Stop_result name m.
Proof.
  intros Hopen. unfold manager.Stop, Stop_result, bind at 1.
  rewrite stopAutoRestartForTunnel_open by done. run.
  destruct (tunnels m !! name) as [tun|] eqn:Htun; [|done]. run.
  by destruct (Tunnel_Stop tun) as [tun' [err|]].
Qed.

Lemma Restart_eq name m : Restart name m = Restart_result name m.
Proof.
  unfold Restart, Restart_result. run.
  destruct (tunnels m !! name) as [tun|] eqn:Htun; [|done]. run.
  by destruct (Tunnel_Restart tun) as [tun' [err|]].
Qed.

Lemma Start_open name m :
  dones_open m → manager.Start name m = Start_result name m.
Proof.
  intros Hopen. unfold manager.Start, Start_result. run.
  destruct (tunnels m !! name) as [tun|] eqn:Htun; [|done]. run.
  destruct (Tunnel_Start tun) as [tun' [err|]]; simpl; [done|].
  destruct (Enabled _); [|done].
  by rewrite startAutoRestartForTunnel_open.
Qed.

End manager_facts.

(** ** The manager: loops over names *)
Section manager_loops.
Context `{!tunnel.Lib}.
Import tunnel config manager.
Local Open Scope manager_scope.

Implicit Types (m : Manager) (name k : string) (cfg : TunnelConfig) (e : entry).

(** A loop whose steps each touch the entry of one name, over a list that
    visits no name twice: every visited name gets the effect of its step
    applied to its entry as it was at the start, every other name keeps its
    entry. *)
Lemma forEach_keyed {A} (key : A → string) (F : A → entry → entry)
    (I : Manager → Prop) (body : A → M Manager unit) (l : list A) m :
  NoDup (key <$> l) →
  (∀ x m, x ∈ l → I m →
     ∃ m' out, body x m = Done () m' out ∧ I m' ∧
       ∀ k, view m' k = if decide (k = key x) then F x (view m k) else view m k) →
  I m →
  ∃ m' out, forEach l body m = Done () m' out ∧ I m' ∧
    (∀ x, x ∈ l → view m' (key x) = F x (view m (key x))) ∧
    (∀ k, k ∉ key <$> l → view m' k = view m k).
Proof.
  revert m. induction l as [|x l IH]; intros m Hnd Hbody HI.
  { exists m, []. split_and!; try done. intros x Hx. by apply elem_of_nil in Hx. }
  rewrite fmap_cons in Hnd. apply NoDup_cons in Hnd as [Hx Hnd].
  destruct (Hbody x m) as (m1 & out1 & Hrun1 & HI1 & Hv1); [by left|done|].
  destruct (IH m1) as (m' & out & Hrun & HI' & Hin & Hout); [done| |done|].
  { intros y m2 Hy. apply Hbody. by right. }
  exists m', (out1 ++ out). split_and!; try done.
  - cbn [forEach]. unfold bind. by rewrite Hrun1, Hrun.
  - intros y [->|Hy]%elem_of_cons.
    + rewrite Hout by done. rewrite Hv1. by rewrite decide_True.
    + rewrite Hin by done. rewrite Hv1. rewrite decide_False; [done|].
      intros Heq. apply Hx. rewrite <- Heq. by apply list_elem_of_fmap_2.
  - intros k Hk. rewrite fmap_cons in Hk. apply not_elem_of_cons in Hk as [Hkx Hk].
    rewrite Hout by done. rewrite Hv1. by rewrite decide_False.
Qed.

Ltac view_cases k name :=
  intros k; unfold view, removed, added_started, restarted; simpl;
  destruct (decide (k = name)) as [->|]; simpl;
  rewrite ?lookup_insert_eq, ?lookup_delete_eq;
  rewrite ?lookup_insert_ne, ?lookup_delete_ne by done.

Lemma dones_open_delete name m :
  dones_open m → dones_open (set_tunnelDones (delete name) m).
Proof. intros Hopen k c Hk. simpl in Hk. apply lookup_delete_Some in Hk as [_ Hk]. eauto. Qed.

Lemma dones_open_insert name m :
  dones_open m → dones_open (set_tunnelDones <[name := chanOpen]> m).
Proof.
  intros Hopen k c Hk. simpl in Hk.
  apply lookup_insert_Some in Hk as [[_ <-]|[_ Hk]]; eauto.
Qed.

Lemma removeLoop_keyed ssh d (N : gset string) (l : list string) m :
  NoDup l → steady ssh d m →
  ∃ m' out, removeLoop l N m = Done () m' out ∧ steady ssh d m' ∧
    (∀ k, k ∈ l → view m' k = if decide (k ∈ N) then view m k else removed (view m k)) ∧
    (∀ k, k ∉ l → view m' k = view m k).
Proof.
  intros Hnd Hm. unfold removeLoop.
  destruct (forEach_keyed id (λ k e, if decide (k ∈ N) then e else removed e)
              (steady ssh d) (λ name,
                 if decide (name ∈ N) then ret ()
                 else logPrintf (LogRemoving name);;
                      err ← Remove name;
                      match err with
                      | Some err => logPrintf (LogRemoveFailed name err)
                      | None => ret ()
                      end) l m) as (m' & out & Hrun & Hm' & Hin & Hout);
    [by rewrite list_fmap_id| |done|].
  - clear m Hm. intros name m _ (Hopen & Hssh & Hd). unfold id.
    case_decide as HN.
    { exists m, []. split_and!; try done. intros k. by case_decide. }
    unfold bind at 1, logPrintf at 1. unfold bind at 1.
    rewrite Remove_open by done. unfold Remove_result.
    destruct (tunnels m !! name) as [tun|] eqn:Htun;
      [destruct (decide (Tunnel_Status tun = StatusRunning)) as [Hst|Hst];
       [destruct (Tunnel_Stop tun) as [tun' [err|]] eqn:Hstop|]|].
    all: unfold logPrintf, ret; eexists _, _; (split; [reflexivity|]).
    all: split; [split_and!; try done; by apply dones_open_delete|].
    all: view_cases k name; try done; rewrite ?Htun; simpl.
    all: rewrite ?decide_True, ?decide_False by done; rewrite ?Hstop; done.
  - exists m', out. split_and!; try done. intros k Hk. apply Hout. by rewrite list_fmap_id.
Qed.

Lemma addLoop_keyed ssh d (C : gset string) (l : list (string * TunnelConfig)) m :
  NoDup l.*1 → (∀ name cfg, (name, cfg) ∈ l → Name cfg = name) → steady ssh d m →
  ∃ m' out, addLoop l C m = Done () m' out ∧ steady ssh d m' ∧
    (∀ name cfg, (name, cfg) ∈ l →
       view m' name =
         if decide (name ∈ C) then view m name
         else added_started ssh cfg (view m name)) ∧
    (∀ k, k ∉ l.*1 → view m' k = view m k).
Proof.
  intros Hnd Hnamed Hm. unfold addLoop.
  match goal with |- context [forEach l ?body m] =>
    destruct (forEach_keyed fst
                (λ x e, if decide (x.1 ∈ C) then e else added_started ssh x.2 e)
                (steady ssh d) body l m) as (m' & out & Hrun & Hm' & Hin & Hout);
      [done| |done|]
  end.
  - clear m Hm. intros [name cfg] m Hx (Hopen & Hssh & Hd). cbn [fst snd].
    apply Hnamed in Hx.
    case_decide as HC.
    { exists m, []. split_and!; try done. intros k. by case_decide. }
    unfold bind at 1, logPrintf at 1. unfold bind at 1.
    rewrite Add_eq. unfold Add_result. rewrite Hx, Hssh.
    destruct (tunnels m !! name) as [tun|] eqn:Htun.
    { unfold logPrintf. eexists _, _. split; [reflexivity|]. split; [done|].
      view_cases k name; by rewrite ?Htun. }
    cbn zeta. unfold bind at 1.
    set (tun := NewTunnel ssh (RemoteHost cfg) (RemotePort cfg) (LocalPort cfg)).
    rewrite Start_open by done. unfold Start_result. simpl.
    rewrite !lookup_insert_eq. simpl.
    destruct (Tunnel_Start tun) as [tun' [err|]] eqn:Hstart; simpl;
      [|destruct (Enabled (AutoRestart cfg)) eqn:Hen].
    all: unfold logPrintf, ret; eexists _, _; (split; [reflexivity|]).
    all: split; [split_and!; try done; by apply dones_open_insert|].
    all: view_cases k name; try done; rewrite ?Htun; simpl.
    all: fold tun; rewrite ?Hstart, ?insert_insert_eq, ?lookup_insert_eq; simpl;
      rewrite ?Hen; done.
  - exists m', out. split_and!; try done.
    intros name cfg Hx. apply (Hin (name, cfg) Hx).
Qed.

Lemma restartLoop_keyed ssh d (C : gset string) (l : list (string * TunnelConfig)) m :
  NoDup l.*1 → steady ssh d m →
  ∃ m' out, restartLoop l C m = Done () m' out ∧ steady ssh d m' ∧
    (∀ name cfg, (name, cfg) ∈ l →
       view m' name =
         if decide (name ∈ C) then restarted cfg (view m name) else view m name) ∧
    (∀ k, k ∉ l.*1 → view m' k = view m k).
Proof.
  intros Hnd Hm. unfold restartLoop.
  match goal with |- context [forEach l ?body m] =>
    destruct (forEach_keyed fst
                (λ x e, if decide (x.1 ∈ C) then restarted x.2 e else e)
                (steady ssh d) body l m) as (m' & out & Hrun & Hm' & Hin & Hout);
      [done| |done|]
  end.
  - clear m Hm. intros [name cfg] m Hx (Hopen & Hssh & Hd). cbn [fst snd].
    case_decide as HC; last first.
    { exists m, []. split_and!; try done. intros k. by case_decide. }
    unfold bind at 1, get at 1.
    destruct (configs m !! name) as [old|] eqn:Hold; last first.
    { exists m, []. split_and!; try done.
      view_cases k name; by rewrite ?Hold. }
    destruct (tunnelConfigChanged old cfg) eqn:Hch; last first.
    { exists m, []. split_and!; try done.
      view_cases k name; by rewrite ?Hold, ?Hch. }
    unfold bind at 1, logPrintf at 1. unfold bind at 1, modify at 1. unfold bind at 1.
    rewrite Restart_eq. unfold Restart_result. simpl.
    destruct (tunnels m !! name) as [tun|] eqn:Htun;
      [destruct (Tunnel_Restart tun) as [tun' [err|]] eqn:Hre|]; simpl.
    all: unfold logPrintf, ret; eexists _, _; (split; [reflexivity|]).
    all: split; [done|].
    all: view_cases k name; try done; rewrite ?Htun, ?Hold; simpl; rewrite ?Hch, ?Hre; done.
  - exists m', out. split_and!; try done.
    intros name cfg Hx. apply (Hin (name, cfg) Hx).
Qed.

(** *** The local map [newConfigs] *)

Lemma newConfigsOf_snoc (l : list TunnelConfig) cfg :
  newConfigsOf (l ++ [cfg]) = <[Name cfg := cfg]> (newConfigsOf l).
Proof. unfold newConfigsOf. by rewrite foldl_app. Qed.

Lemma newConfigsOf_lookup (l : list TunnelConfig) k cfg :
  newConfigsOf l !! k = Some cfg → Name cfg = k ∧ cfg ∈ l.
Proof.
  induction l as [|c l IH] using rev_ind; [done|].
  rewrite newConfigsOf_snoc. intros [[<- <-]|[_ Hk]]%lookup_insert_Some.
  - split; [done|]. apply elem_of_app. right. by left.
  - destruct (IH Hk). split; [done|]. apply elem_of_app. by left.
Qed.

Lemma dom_newConfigsOf (l : list TunnelConfig) :
  dom (newConfigsOf l) = list_to_set (Name <$> l).
Proof.
  induction l as [|c l IH] using rev_ind; [done|].
  rewrite newConfigsOf_snoc, dom_insert_L, IH, fmap_app, list_to_set_app_L.
  cbn [fmap list_fmap list_to_set]. by rewrite (right_id_L ∅ (∪)), (comm_L (∪)).
Qed.

Lemma newConfigsOf_None (l : list TunnelConfig) k :
  newConfigsOf l !! k = None ↔ k ∉ Name <$> l.
Proof.
  rewrite <- not_elem_of_dom, dom_newConfigsOf. by rewrite elem_of_list_to_set.
Qed.

(** *** [Reconcile] *)

Lemma List_eq m : List m = Done ((map_to_list (tunnels m)).*1) m [].
Proof. done. Qed.

Lemma elem_of_keys {V} (t : gmap string V) k :
  k ∈ (map_to_list t).*1 ↔ is_Some (t !! k).
Proof.
  rewrite list_elem_of_fmap. split.
  - intros ([k' v] & -> & Hin%elem_of_map_to_list). eauto.
  - intros [v Hv]. exists (k, v). split; [done|]. by apply elem_of_map_to_list.
Qed.

(** [Reconcile] returns when the cancel channels are open, and what it
    leaves under each name is given by [reconciled]. *)
Lemma Reconcile_reconciled (newConfig : Config) m :
  dones_open m →
  ∃ m' out, Reconcile newConfig m = Done None m' out ∧
    dones_open m' ∧ sshConfig m' = SSH newConfig ∧ done m' = done m ∧
    ∀ k, view m' k = reconciled newConfig m k.
Proof.
  intros Hopen. unfold Reconcile.
  set (m0 := set_sshConfig (SSH newConfig) m).
  set (C := list_to_set (map_to_list (tunnels m)).*1 : gset string).
  set (N := list_to_set (Name <$> TunnelConfigs newConfig) : gset string).
  set (nc := newConfigsOf (TunnelConfigs newConfig)).
  assert (HC : ∀ k, k ∈ C ↔ is_Some (tunnels m !! k)).
  { intros k. subst C. by rewrite elem_of_list_to_set, elem_of_keys. }
  assert (HN : ∀ k, k ∈ N ↔ is_Some (nc !! k)).
  { intros k. subst N nc. by rewrite <- dom_newConfigsOf, elem_of_dom. }
  assert (Hm0 : steady (SSH newConfig) (done m) m0) by done.
  destruct (removeLoop_keyed _ _ N (elements C) m0 (NoDup_elements C) Hm0)
    as (m1 & out1 & Hrun1 & Hm1 & Hin1 & Hout1).
  destruct (addLoop_keyed (SSH newConfig) (done m) C (map_to_list nc) m1) as
    (m2 & out2 & Hrun2 & Hm2 & Hin2 & Hout2);
    [apply NoDup_fst_map_to_list| |done|].
  { intros name cfg Hx%elem_of_map_to_list. by apply newConfigsOf_lookup in Hx as [? _]. }
  destruct (restartLoop_keyed (SSH newConfig) (done m) C (map_to_list nc) m2) as
    (m3 & out3 & Hrun3 & Hm3 & Hin3 & Hout3);
    [apply NoDup_fst_map_to_list|done|].
  exists m3, (out1 ++ out2 ++ out3 ++ []).
  split.
  { unfold bind at 1, modify at 1. fold m0. unfold bind at 1. rewrite List_eq.
    change (tunnels m0) with (tunnels m). fold C.
    unfold bind at 1. rewrite Hrun1. unfold bind at 1. rewrite Hrun2.
    unfold bind at 1. rewrite Hrun3. done. }
  destruct Hm3 as (? & ? & ?). split_and!; try done.
  intros k. unfold reconciled. fold nc.
  assert (Hv1 : view m1 k =
    if decide (k ∈ C) then (if decide (k ∈ N) then view m k else removed (view m k))
    else view m k).
  { case_decide as Hk.
    - rewrite Hin1 by (by apply elem_of_elements). done.
    - rewrite Hout1 by (by rewrite elem_of_elements). done. }
  destruct (nc !! k) as [cfg|] eqn:Hnc.
  - assert (Hx : (k, cfg) ∈ map_to_list nc) by (by apply elem_of_map_to_list).
    rewrite (Hin3 _ _ Hx), (Hin2 _ _ Hx), Hv1.
    assert (k ∈ N) by (apply HN; eauto).
    destruct (tunnels m !! k) as [tun|] eqn:Htun.
    + assert (k ∈ C) by (apply HC; eauto). by rewrite !decide_True.
    + assert (k ∉ C) by (rewrite HC, Htun; by intros [? ?]). by rewrite !decide_False.
  - assert (Hx : k ∉ (map_to_list nc).*1).
    { rewrite elem_of_keys, Hnc. by intros [? ?]. }
    rewrite (Hout3 _ Hx), (Hout2 _ Hx), Hv1.
    assert (k ∉ N) by (rewrite HN, Hnc; by intros [? ?]).
    destruct (tunnels m !! k) as [tun|] eqn:Htun.
    + assert (k ∈ C) by (apply HC; eauto). by rewrite decide_True, decide_False.
    + assert (k ∉ C) by (rewrite HC, Htun; by intros [? ?]). by rewrite decide_False.
Qed.

(** *** [StopAll] and [Close] *)

Lemma cancel_all (l : list (string * chan)) m :
  Forall (λ x, x.2 = chanOpen) l →
  forEach l (λ '(name, done),
    close done;; modify (set_tunnelDones (delete name))) m =
  Done () (set_tunnelDones (λ d, foldl (λ d x, delete x.1 d) d l) m) [].
Proof.
  revert m. induction l as [|[name c] l IH]; intros m Hl.
  { simpl. unfold ret. f_equal. by apply Manager_eq. }
  apply Forall_cons in Hl as [Hc Hl]. simpl in Hc. subst c.
  cbn [forEach]. unfold bind at 1. run. by rewrite IH.
Qed.

Lemma lookup_foldl_delete {V} (l : list (string * V)) (d : gmap string chan) k :
  foldl (λ d x, delete x.1 d) d l !! k =
  if decide (k ∈ l.*1) then None else d !! k.
Proof.
  revert d. induction l as [|[name c] l IH]; intros d; [done|].
  cbn [foldl fst]. rewrite IH, fmap_cons. cbn [fst].
  destruct (decide (k = name)) as [->|Hne].
  - rewrite lookup_delete_eq. rewrite (decide_True (P := name ∈ name :: _)) by left.
    by case_decide.
  - rewrite lookup_delete_ne by done.
    destruct (decide (k ∈ l.*1)) as [Hin|Hin].
    + by rewrite (decide_True (P := k ∈ name :: _)) by (by right).
    + rewrite (decide_False (P := k ∈ name :: _)); [done|].
      by intros [?|?]%elem_of_cons.
Qed.

Lemma forEachAcc_keyed {A B} (key : A → string) (F : A → entry → entry)
    (I : Manager → Prop) (body : B → A → M Manager B) (l : list A) (acc : B) m :
  NoDup (key <$> l) →
  (∀ acc x m, x ∈ l → I m →
     ∃ acc' m' out, body acc x m = Done acc' m' out ∧ I m' ∧
       ∀ k, view m' k = if decide (k = key x) then F x (view m k) else view m k) →
  I m →
  ∃ acc' m' out, forEachAcc l acc body m = Done acc' m' out ∧ I m' ∧
    (∀ x, x ∈ l → view m' (key x) = F x (view m (key x))) ∧
    (∀ k, k ∉ key <$> l → view m' k = view m k).
Proof.
  revert acc m. induction l as [|x l IH]; intros acc m Hnd Hbody HI.
  { exists acc, m, []. split_and!; try done. intros x Hx. by apply elem_of_nil in Hx. }
  rewrite fmap_cons in Hnd. apply NoDup_cons in Hnd as [Hx Hnd].
  destruct (Hbody acc x m) as (acc1 & m1 & out1 & Hrun1 & HI1 & Hv1); [by left|done|].
  destruct (IH acc1 m1) as (acc' & m' & out & Hrun & HI' & Hin & Hout); [done| |done|].
  { intros acc2 y m2 Hy. apply Hbody. by right. }
  exists acc', m', (out1 ++ out). split_and!; try done.
  - cbn [forEachAcc]. unfold bind. by rewrite Hrun1, Hrun.
  - intros y [->|Hy]%elem_of_cons.
    + rewrite Hout by done. rewrite Hv1. by rewrite decide_True.
    + rewrite Hin by done. rewrite Hv1. rewrite decide_False; [done|].
      intros Heq. apply Hx. rewrite <- Heq. by apply list_elem_of_fmap_2.
  - intros k Hk. rewrite fmap_cons in Hk. apply not_elem_of_cons in Hk as [Hkx Hk].
    rewrite Hout by done. rewrite Hv1. by rewrite decide_False.
Qed.

(** [StopAll] cancels every supervisor and calls [Stop] on every tunnel. *)
Lemma StopAll_open m :
  dones_open m →
  ∃ errors m' out, StopAll m = Done errors m' out ∧
    sshConfig m' = sshConfig m ∧
    tunnels m' = (λ tun, (Tunnel_Stop tun).1) <$> tunnels m ∧
    configs m' = configs m ∧ tunnelDones m' = ∅ ∧ done m' = done m.
Proof.
  intros Hopen. unfold StopAll, bind at 1, get. unfold bind at 1.
  rewrite cancel_all; last first.
  { apply Forall_forall. intros [k c] Hin%elem_of_map_to_list. by apply (Hopen k). }
  cbn beta iota. unfold bind at 1, get.
  set (m1 := set_tunnelDones _ m).
  assert (Hd : tunnelDones m1 = ∅).
  { apply map_eq. intros k. subst m1. simpl. rewrite lookup_foldl_delete, lookup_empty.
    case_decide as Hk; [done|]. apply not_elem_of_dom. intros Hin. apply Hk.
    apply elem_of_dom in Hin as [c Hc]. apply list_elem_of_fmap. exists (k, c).
    split; [done|]. by apply elem_of_map_to_list. }
  pose (I := λ m', sshConfig m' = sshConfig m ∧ done m' = done m).
  match goal with |- context [forEachAcc ?l ?acc ?body m1] =>
    destruct (forEachAcc_keyed fst
                (λ x e, Entry (Some (Tunnel_Stop x.2).1) (e_config e) (e_done e))
                I body l acc m1) as (errs & m' & out & Hrun & HI & Hin & Hout)
  end.
  - apply NoDup_fst_map_to_list.
  - intros acc [name tun] m2 _ [? ?]. cbn [fst snd]. run.
    destruct (Tunnel_Stop tun) as [tun' [err|]]; simpl;
      eexists _, _, _; (split; [done|]); (split; [done|]).
    all: view_cases k name; done.
  - done.
  - rewrite Hrun. exists errs, m', ([] ++ out). destruct HI as [? ?].
    assert (Hv : ∀ k, view m' k =
      Entry ((λ tun, (Tunnel_Stop tun).1) <$> tunnels m !! k) (configs m !! k) None).
    { intros k. destruct (tunnels m !! k) as [tun|] eqn:Htun.
      - pose proof (Hin (k, tun)) as Hk. cbn [fst snd] in Hk.
        rewrite Hk by (by apply elem_of_map_to_list).
        unfold view. cbn [e_config e_done]. by rewrite Hd, lookup_empty.
      - rewrite Hout.
        + unfold view. rewrite Hd, lookup_empty.
          change (tunnels m1) with (tunnels m). by rewrite Htun.
        + rewrite elem_of_keys. change (tunnels m1) with (tunnels m).
          rewrite Htun. by intros [? ?]. }
    split_and!; try done; apply map_eq; intros k;
      pose proof (Hv k) as Hk; unfold view in Hk; injection Hk as Ht Hc Hdn.
    + by rewrite lookup_fmap.
    + done.
    + by rewrite lookup_empty.
Qed.

Lemma Close_closed m : done m = chanClosed → Close m = Panic.
Proof. intros Hd. unfold Close. run. by rewrite Hd. Qed.

Lemma Close_open m :
  done m = chanOpen → dones_open m →
  ∃ r m' out, Close m = Done r m' out ∧
    sshConfig m' = sshConfig m ∧
    tunnels m' = (λ tun, (Tunnel_Stop tun).1) <$> tunnels m ∧
    configs m' = configs m ∧ tunnelDones m' = ∅ ∧ done m' = chanClosed.
Proof.
  intros Hd Hopen.
  destruct (StopAll_open (set_done chanClosed m)) as
    (errs & m' & out & Hrun & ? & ? & ? & ? & ?); [done|].
  unfold Close, bind, get, modify, close. rewrite Hd. cbn beta iota. unfold ret at 1.
  rewrite Hrun. case_decide; unfold ret; eexists _, _, _; (split; [done|]); done.
Qed.

End manager_loops.

(** ** The manager: invariants *)
Section manager_invariants.
Context `{!tunnel.Lib}.
Import tunnel config manager.
Local Open Scope manager_scope.

Implicit Types (m : Manager) (name k : string) (cfg : TunnelConfig) (e : entry).

Lemma wf_entries m : wf m ↔ ∀ k, entry_wf k (view m k).
Proof.
  unfold wf, maps_consistent, configs_named, dones_open, entry_wf, view. simpl. split.
  - intros ((Hd & Ht) & Hn & Ho) k. split_and!; eauto.
    + rewrite <- !elem_of_dom. apply Hd.
    + rewrite <- !elem_of_dom. by rewrite Ht.
  - intros Hk. split_and!.
    + intros k. rewrite !elem_of_dom. apply Hk.
    + apply set_eq. intros k. rewrite !elem_of_dom. apply Hk.
    + intros k. apply Hk.
    + intros k. apply Hk.
Qed.

Lemma wf_NewManager ssh : wf (NewManager ssh).
Proof.
  apply wf_entries. intros k. unfold entry_wf, view. simpl. rewrite !lookup_empty.
  split_and!; try done; by intros [? ?].
Qed.

Lemma entry_wf_removed k e : entry_wf k e → entry_wf k (removed e).
Proof.
  unfold entry_wf, removed. intros (Hd & Ht & Hn & Ho).
  destruct (e_tunnel e) as [tun|] eqn:Htun;
    [case_decide; [destruct (Tunnel_Stop tun) as [tun' [err|]]|]|]; simpl.
  all: split_and!; try done; try (by intros [? ?]); try (split; by intros [? ?]).
  all: rewrite <- Ht; split; eauto.
Qed.

Lemma entry_wf_added_started ssh cfg e :
  entry_wf (Name cfg) e → entry_wf (Name cfg) (added_started ssh cfg e).
Proof.
  intros He. unfold added_started.
  destruct (e_tunnel e) as [tun|] eqn:Htun; [done|].
  destruct He as (Hd & Ht & Hn & Ho). unfold entry_wf. simpl.
  split_and!; eauto.
  - split; eauto.
  - by intros ? [= <-].
  - destruct (Tunnel_Start _).2; [done|]. destruct (Enabled _); [|done]. by intros c [= <-].
Qed.

Lemma entry_wf_restarted cfg e :
  entry_wf (Name cfg) e → entry_wf (Name cfg) (restarted cfg e).
Proof.
  intros He. unfold restarted.
  destruct (e_config e) as [old|] eqn:Hold; [|done].
  destruct (tunnelConfigChanged old cfg); [|done].
  destruct He as (Hd & Ht & Hn & Ho). unfold entry_wf. simpl.
  rewrite fmap_is_Some. split_and!; try done.
  - rewrite Ht. split; eauto.
  - by intros c [= <-].
Qed.

Lemma entry_wf_reconciled (newConfig : Config) m k :
  entry_wf k (view m k) → entry_wf k (reconciled newConfig m k).
Proof.
  intros He. unfold reconciled.
  destruct (newConfigsOf (TunnelConfigs newConfig) !! k) as [cfg|] eqn:Hcfg.
  - apply newConfigsOf_lookup in Hcfg as [<- _].
    destruct (tunnels m !! Name cfg);
      [by apply entry_wf_restarted|by apply entry_wf_added_started].
  - destruct (tunnels m !! k); [by apply entry_wf_removed|done].
Qed.

Lemma Reconcile_wf (newConfig : Config) m :
  wf m →
  ∃ m' out, Reconcile newConfig m = Done None m' out ∧ wf m' ∧
    sshConfig m' = SSH newConfig ∧ done m' = done m ∧
    ∀ k, view m' k = reconciled newConfig m k.
Proof.
  intros Hwf.
  destruct (Reconcile_reconciled newConfig m) as (m' & out & Hrun & _ & ? & ? & Hv).
  { apply Hwf. }
  exists m', out. split_and!; try done.
  apply wf_entries. intros k. rewrite Hv. apply entry_wf_reconciled.
  by apply wf_entries.
Qed.

Lemma wf_step m m' name :
  wf m → (∀ k, k ≠ name → view m' k = view m k) →
  entry_wf name (view m' name) → wf m'.
Proof.
  intros Hwf Hother Hname. apply wf_entries. intros k.
  destruct (decide (k = name)) as [->|Hk]; [done|].
  rewrite Hother by done. by apply wf_entries.
Qed.

Ltac wf_at name Hwf :=
  eapply (wf_step _ _ name); [exact Hwf| |];
  [ let k := fresh "k" in let Hk := fresh "Hk" in
    intros k Hk; unfold view; simpl;
    rewrite ?lookup_insert_ne, ?lookup_delete_ne by done; done
  | apply wf_entries with (k := name) in Hwf;
    unfold entry_wf, view in *; simpl in *;
    rewrite ?lookup_insert_eq, ?lookup_delete_eq; simpl ].

Ltac entry_solver :=
  split_and!; eauto;
  first [ done
        | by intros ? [= <-]
        | by intros [? ?]
        | by split; intros [? ?]
        | by split; eauto
        | match goal with Ht : _ ↔ _ |- _ => rewrite <- Ht; split; by eauto end ].

Lemma Add_wf cfg : total wf (Add cfg) (λ _, wf).
Proof.
  intros m Hwf. rewrite Add_eq. unfold Add_result.
  destruct (tunnels m !! Name cfg) as [tun|] eqn:Htun; eexists _, _, _; (split; [done|]);
    [done|].
  wf_at (Name cfg) Hwf. destruct Hwf as (Hd & Ht & Hn & Ho). entry_solver.
Qed.

Lemma Remove_wf name : total wf (Remove name) (λ _, wf).
Proof.
  intros m Hwf. rewrite Remove_open by apply Hwf. unfold Remove_result.
  destruct (tunnels m !! name) as [tun|] eqn:Htun;
    [case_decide; [destruct (Tunnel_Stop tun) as [tun' [err|]]|]|];
    eexists _, _, _; (split; [done|]).
  all: wf_at name Hwf; rewrite ?Htun in *; destruct Hwf as (Hd & Ht & Hn & Ho).
  all: entry_solver.
Qed.

Lemma Start_wf name : total wf (manager.Start name) (λ _, wf).
Proof.
  intros m Hwf. rewrite Start_open by apply Hwf. unfold Start_result.
  destruct (tunnels m !! name) as [tun|] eqn:Htun;
    [destruct (Tunnel_Start tun).2; [|destruct (Enabled _)]|];
    eexists _, _, _; (split; [done|]); try done.
  all: wf_at name Hwf; rewrite ?Htun in *; destruct Hwf as (Hd & Ht & Hn & Ho).
  all: entry_solver.
Qed.

Lemma Stop_wf name : total wf (manager.Stop name) (λ _, wf).
Proof.
  intros m Hwf. rewrite Stop_open by apply Hwf. unfold Stop_result.
  destruct (tunnels m !! name) as [tun|] eqn:Htun; eexists _, _, _; (split; [done|]).
  all: wf_at name Hwf; rewrite ?Htun in *; destruct Hwf as (Hd & Ht & Hn & Ho).
  all: entry_solver.
Qed.

Lemma Restart_wf name : total wf (Restart name) (λ _, wf).
Proof.
  intros m Hwf. rewrite Restart_eq. unfold Restart_result.
  destruct (tunnels m !! name) as [tun|] eqn:Htun; eexists _, _, _; (split; [done|]);
    [|done].
  wf_at name Hwf; rewrite ?Htun in *; destruct Hwf as (Hd & Ht & Hn & Ho).
  entry_solver.
Qed.

Lemma StartAll_wf : total wf StartAll (λ _, wf).
Proof.
  unfold StartAll. eapply total_bind with (R := λ _, wf).
  { intros m Hwf. rewrite List_eq. eauto. }
  intros names. apply total_forEachAcc. intros errors name _.
  eapply total_bind; [apply Start_wf|].
  intros [err|]; by apply total_ret.
Qed.

Lemma StopAll_wf : total wf StopAll (λ _, wf).
Proof.
  intros m Hwf.
  destruct (StopAll_open m) as (errs & m' & out & Hrun & ? & Ht & Hc & Hd & ?);
    [apply Hwf|].
  exists errs, m', out. split; [done|].
  destruct Hwf as ((_ & Hdom) & Hn & _).
  unfold wf, maps_consistent, configs_named, dones_open. split_and!.
  - rewrite Hd. set_solver.
  - by rewrite Ht, Hc, dom_fmap_L.
  - intros k cfg. rewrite Hc. apply Hn.
  - intros k c. by rewrite Hd, lookup_empty.
Qed.

Lemma Close_wf m r m' out : wf m → Close m = Done r m' out → wf m'.
Proof.
  intros Hwf Hrun. destruct (done m) eqn:Hdone; [|by rewrite Close_closed in Hrun].
  destruct (Close_open m Hdone) as (r' & m'' & out' & Hrun' & ? & Ht & Hc & Hd & ?);
    [apply Hwf|].
  rewrite Hrun' in Hrun. injection Hrun as <- <- <-.
  destruct Hwf as ((_ & Hdom) & Hn & _).
  unfold wf, maps_consistent, configs_named, dones_open. split_and!.
  - rewrite Hd. set_solver.
  - by rewrite Ht, Hc, dom_fmap_L.
  - intros k cfg. rewrite Hc. apply Hn.
  - intros k c. by rewrite Hd, lookup_empty.
Qed.

Lemma total_Done {S A} (P : S → Prop) (Q : A → S → Prop) (c : M S A) s a s' out :
  total P c Q → P s → c s = Done a s' out → Q a s'.
Proof.
  intros Hc Hs Hrun. destruct (Hc s Hs) as (a' & s'' & out' & Hrun' & HQ).
  rewrite Hrun' in Hrun. by injection Hrun as <- <- <-.
Qed.

Lemma bind_Done {S A B} (c : M S A) (k : A → M S B) s b s' out :
  bind c k s = Done b s' out →
  ∃ a s1 out1 out2, c s = Done a s1 out1 ∧ k a s1 = Done b s' out2 ∧ out = out1 ++ out2.
Proof.
  unfold bind. destruct (c s) as [a s1 out1|]; [|done].
  destruct (k a s1) as [b' s2 out2|] eqn:Hk; [|done].
  intros [= <- <- <-]. eauto 10.
Qed.

Lemma exec_wf op m m' out : wf m → exec op m = Done () m' out → wf m'.
Proof.
  intros Hwf Hrun. destruct op; simpl in Hrun;
    apply bind_Done in Hrun as (a & m1 & out1 & out2 & Hrun & [= <- _] & _).
  - eapply (total_Done _ _ _ _ _ _ _ (Add_wf cfg)); eauto.
  - eapply (total_Done _ _ _ _ _ _ _ (Remove_wf name)); eauto.
  - eapply (total_Done _ _ _ _ _ _ _ (Start_wf name)); eauto.
  - eapply (total_Done _ _ _ _ _ _ _ (Stop_wf name)); eauto.
  - eapply (total_Done _ _ _ _ _ _ _ (Restart_wf name)); eauto.
  - eapply (total_Done _ _ _ _ _ _ _ StartAll_wf); eauto.
  - eapply (total_Done _ _ _ _ _ _ _ StopAll_wf); eauto.
  - destruct (Reconcile_wf newConfig m Hwf) as (m'' & out' & Hrun' & ? & _).
    rewrite Hrun' in Hrun. by injection Hrun as <- <- <-.
  - by eapply Close_wf.
Qed.

Lemma execAll_wf ops m m' out : wf m → execAll ops m = Done () m' out → wf m'.
Proof.
  revert m out. induction ops as [|op ops IH]; intros m out Hwf Hrun.
  { by injection Hrun as <- <-. }
  unfold execAll in Hrun. cbn [forEach] in Hrun.
  apply bind_Done in Hrun as ([] & m1 & out1 & out2 & Hrun1 & Hrun2 & _).
  eapply IH; [|exact Hrun2]. by eapply exec_wf.
Qed.

(** A sequence of calls without [Close] returns. *)
Lemma execAll_returns ops m :
  OpClose ∉ ops → wf m → ∃ m' out, execAll ops m = Done () m' out.
Proof.
  revert m. induction ops as [|op ops IH]; intros m Hops Hwf.
  { by exists m, []. }
  apply not_elem_of_cons in Hops as [Hop Hops].
  assert (Hstep : ∃ m1 out1, exec op m = Done () m1 out1 ∧ wf m1).
  { destruct op; simpl; try done.
    1: destruct (Add_wf cfg m Hwf) as (a & m1 & out1 & Hrun & ?).
    2: destruct (Remove_wf name m Hwf) as (a & m1 & out1 & Hrun & ?).
    3: destruct (Start_wf name m Hwf) as (a & m1 & out1 & Hrun & ?).
    4: destruct (Stop_wf name m Hwf) as (a & m1 & out1 & Hrun & ?).
    5: destruct (Restart_wf name m Hwf) as (a & m1 & out1 & Hrun & ?).
    6: destruct (StartAll_wf m Hwf) as (a & m1 & out1 & Hrun & ?).
    7: destruct (StopAll_wf m Hwf) as (a & m1 & out1 & Hrun & ?).
    8: destruct (Reconcile_wf newConfig m Hwf) as (m1 & out1 & Hrun & ? & _).
    all: unfold bind; rewrite Hrun; unfold ret; eauto. }
  destruct Hstep as (m1 & out1 & Hrun1 & Hwf1).
  destruct (IH m1 Hops Hwf1) as (m' & out & Hrun).
  exists m', (out1 ++ out). unfold execAll in *. cbn [forEach]. unfold bind.
  by rewrite Hrun1, Hrun.
Qed.

End manager_invariants.

(** ** [Reconcile]: the registered names and the stored configs *)
Section reconcile_facts.
Context `{!tunnel.Lib}.
Import tunnel config manager.
Local Open Scope manager_scope.

Implicit Types (m : Manager) (name k : string) (cfg : TunnelConfig) (e : entry).

Lemma tunnelConfigChanged_refl cfg : tunnelConfigChanged cfg cfg = false.
Proof. unfold tunnelConfigChanged. by repeat case_decide. Qed.

Lemma tunnelConfigChanged_false old new :
  tunnelConfigChanged old new = false → Name old = Name new → old = new.
Proof.
  unfold tunnelConfigChanged. repeat case_decide; try done. intros _ Hname.
  destruct old as [? ? ? ? [? ?]], new as [? ? ? ? [? ?]]; simpl in *.
  repeat match goal with H : ¬ (_ ≠ _) |- _ => apply dec_stable in H end.
  congruence.
Qed.

Lemma newConfigsOf_NoDup (l : list TunnelConfig) cfg :
  NoDup (Name <$> l) → cfg ∈ l → newConfigsOf l !! Name cfg = Some cfg.
Proof.
  induction l as [|c l IH] using rev_ind; intros Hnd Hin.
  { by apply elem_of_nil in Hin. }
  rewrite fmap_app in Hnd. apply NoDup_app in Hnd as (Hnd & Hc & _).
  rewrite newConfigsOf_snoc.
  apply elem_of_app in Hin as [Hin|Hin%list_elem_of_singleton].
  - rewrite lookup_insert_ne; [by apply IH|].
    intros Heq. apply (Hc (Name cfg)).
    + by apply list_elem_of_fmap_2.
    + rewrite <- Heq. simpl. by left.
  - subst c. by rewrite lookup_insert_eq.
Qed.

(** After [Reconcile(new)] on a well-formed manager: every name of [new] is
    registered; a registered name that is not in [new] belongs to a tunnel
    that was running and whose stop failed; under every name of [new] the
    stored config is the entry of [new]. *)
Lemma Reconcile_post (new : Config) m :
  wf m →
  ∃ m' out, Reconcile new m = Done None m' out ∧
    wf m' ∧ sshConfig m' = SSH new ∧
    (∀ k, k ∈ Name <$> TunnelConfigs new → is_Some (tunnels m' !! k)) ∧
    (∀ k, is_Some (tunnels m' !! k) → k ∉ Name <$> TunnelConfigs new →
       ∃ tun err, tunnels m !! k = Some tun ∧ Tunnel_Status tun = StatusRunning ∧
         (Tunnel_Stop tun).2 = Some err) ∧
    (∀ k cfg, newConfigsOf (TunnelConfigs new) !! k = Some cfg →
       configs m' !! k = Some cfg).
Proof.
  intros Hwf.
  destruct (Reconcile_wf new m Hwf) as (m' & out & Hrun & Hwf' & Hssh & _ & Hv).
  exists m', out. split_and!; try done.
  - intros k Hk. pose proof (f_equal e_tunnel (Hv k)) as Ht. simpl in Ht.
    rewrite Ht. clear Ht.
    unfold reconciled.
    destruct (newConfigsOf (TunnelConfigs new) !! k) as [cfg|] eqn:Hnc;
      [|by apply newConfigsOf_None in Hnc].
    destruct (tunnels m !! k) as [tun|] eqn:Htun.
    + unfold restarted, view; simpl.
      destruct (configs m !! k); [|by rewrite Htun].
      destruct (tunnelConfigChanged _ _); simpl; rewrite Htun; eauto.
    + unfold added_started, view; simpl. rewrite Htun. simpl. eauto.
  - intros k Hk Hnew. pose proof (f_equal e_tunnel (Hv k)) as Ht. simpl in Ht.
    rewrite Ht in Hk. clear Ht.
    unfold reconciled in Hk. apply newConfigsOf_None in Hnew. rewrite Hnew in Hk.
    destruct (tunnels m !! k) as [tun|] eqn:Htun; last first.
    { unfold view in Hk; simpl in Hk. rewrite Htun in Hk. by destruct Hk. }
    unfold removed, view in Hk; simpl in Hk. rewrite Htun in Hk.
    case_decide as Hst; [|by destruct Hk].
    destruct (Tunnel_Stop tun) as [tun' [err|]] eqn:Hstop; [|by destruct Hk].
    exists tun, err. by rewrite Hstop.
  - intros k cfg Hnc. pose proof (f_equal e_config (Hv k)) as Hc. simpl in Hc.
    rewrite Hc. clear Hc.
    unfold reconciled. rewrite Hnc.
    apply wf_entries with (k := k) in Hwf as (_ & Ht & Hn & _). simpl in Ht, Hn.
    destruct (tunnels m !! k) as [tun|] eqn:Htun.
    + unfold restarted, view; simpl.
      destruct (configs m !! k) as [old|] eqn:Hold; [|by destruct (proj1 Ht)].
      destruct (tunnelConfigChanged old cfg) eqn:Hch; simpl; [done|].
      f_equal. apply tunnelConfigChanged_false; [done|].
      apply newConfigsOf_lookup in Hnc as [-> _]. by apply Hn.
    + unfold added_started, view; simpl. by rewrite Htun.
Qed.

(** A second [Reconcile(new)] on a manager that already has the SSH config,
    the names and the configs of [new] does nothing and logs nothing. *)
Lemma Reconcile_noop (new : Config) m :
  sshConfig m = SSH new →
  (∀ k, is_Some (tunnels m !! k) ↔ k ∈ Name <$> TunnelConfigs new) →
  (∀ k cfg, newConfigsOf (TunnelConfigs new) !! k = Some cfg →
     configs m !! k = Some cfg) →
  Reconcile new m = Done None m [].
Proof.
  intros Hssh Hnames Hconfigs. unfold Reconcile.
  assert (Hm : set_sshConfig (SSH new) m = m).
  { by apply Manager_eq. }
  unfold bind at 1, modify at 1. rewrite Hm. unfold bind at 1. rewrite List_eq.
  set (C := list_to_set (map_to_list (tunnels m)).*1 : gset string).
  assert (HC : ∀ k, k ∈ C ↔ k ∈ Name <$> TunnelConfigs new).
  { intros k. subst C. by rewrite elem_of_list_to_set, elem_of_keys. }
  unfold bind at 1. unfold removeLoop. rewrite forEach_skip; last first.
  { intros name Hin%elem_of_elements. rewrite decide_True; [done|].
    apply elem_of_list_to_set. by apply HC. }
  unfold bind at 1. unfold addLoop. rewrite forEach_skip; last first.
  { intros [name cfg] Hin%elem_of_map_to_list. rewrite decide_True; [done|].
    apply HC. apply newConfigsOf_lookup in Hin as [<- ?]. by apply list_elem_of_fmap_2. }
  unfold bind at 1. unfold restartLoop. rewrite forEach_skip; [done|].
  intros [name cfg] Hin%elem_of_map_to_list. case_decide; [|done].
  unfold bind, get. rewrite (Hconfigs _ _ Hin). by rewrite tunnelConfigChanged_refl.
Qed.

(** C1, as amended. On a well-formed manager [Reconcile(new)] returns, and
    afterwards: every name occurring in [new] is registered; every other
    registered name is that of a tunnel that was registered before, was
    Running, and whose Stop failed when [Reconcile] tried to remove it; so
    the registered names are exactly the names of [new] when no such Stop
    fails; and for every name of [new] the stored TunnelConfig is the entry
    of [new] for that name (the last one when the name is repeated, any one
    when names are unique). *)
Theorem Reconcile_names_and_configs (new : Config) m :
  wf m →
  ∃ m' out, Reconcile new m = Done None m' out ∧
    (∀ k, k ∈ Name <$> TunnelConfigs new → k ∈ dom (tunnels m')) ∧
    (∀ k, k ∈ dom (tunnels m') → k ∉ Name <$> TunnelConfigs new →
       ∃ tun err, tunnels m !! k = Some tun ∧ Tunnel_Status tun = StatusRunning ∧
         (Tunnel_Stop tun).2 = Some err) ∧
    ((∀ k tun, tunnels m !! k = Some tun → k ∉ Name <$> TunnelConfigs new →
        Tunnel_Status tun = StatusRunning → (Tunnel_Stop tun).2 = None) →
     dom (tunnels m') = list_to_set (Name <$> TunnelConfigs new)) ∧
    (∀ k cfg, newConfigsOf (TunnelConfigs new) !! k = Some cfg →
       configs m' !! k = Some cfg) ∧
    (NoDup (Name <$> TunnelConfigs new) →
     ∀ cfg, cfg ∈ TunnelConfigs new → configs m' !! Name cfg = Some cfg).
Proof.
  intros Hwf.
  destruct (Reconcile_post new m Hwf) as (m' & out & Hrun & _ & _ & Hin & Hnot & Hcfg).
  exists m', out. split_and!; try done.
  - intros k Hk. apply elem_of_dom. by apply Hin.
  - intros k Hk%elem_of_dom. by apply Hnot.
  - intros Hstop. apply set_eq. intros k. rewrite elem_of_dom, elem_of_list_to_set.
    split; [|apply Hin]. intros Hk.
    destruct (decide (k ∈ Name <$> TunnelConfigs new)) as [|Hnew]; [done|].
    destruct (Hnot k Hk Hnew) as (tun & err & Htun & Hst & Herr).
    rewrite (Hstop k tun Htun Hnew Hst) in Herr. done.
  - intros Hnd cfg Hin'. apply Hcfg. by apply newConfigsOf_NoDup.
Qed.

(** C4, as amended. On a well-formed manager on which no removal fails
    (every Running tunnel whose name is not in [cfg] stops without error),
    [Reconcile(cfg)] returns and a second [Reconcile(cfg)] returns the same
    manager state and logs nothing: it removes, adds and restarts no
    tunnel. *)
Theorem Reconcile_twice (cfg : Config) m :
  wf m →
  (∀ k tun, tunnels m !! k = Some tun → k ∉ Name <$> TunnelConfigs cfg →
     Tunnel_Status tun = StatusRunning → (Tunnel_Stop tun).2 = None) →
  ∃ m1 out1, Reconcile cfg m = Done None m1 out1 ∧
    Reconcile cfg m1 = Done None m1 [].
Proof.
  intros Hwf Hstop.
  destruct (Reconcile_post cfg m Hwf) as (m1 & out1 & Hrun & _ & Hssh & Hin & Hnot & Hcfg).
  exists m1, out1. split; [done|].
  apply Reconcile_noop; try done.
  intros k. split; [|apply Hin]. intros Hk.
  destruct (decide (k ∈ Name <$> TunnelConfigs cfg)) as [|Hnew]; [done|].
  destruct (Hnot k Hk Hnew) as (tun & err & Htun & Hst & Herr).
  rewrite (Hstop k tun Htun Hnew Hst) in Herr. done.
Qed.

(** C8. From a new manager, after any sequence of calls of [Add], [Remove],
    [Start], [Stop], [Restart], [StartAll], [StopAll], [Reconcile] and
    [Close] that has returned, every key of [tunnelDones] is a key of
    [tunnels], and [tunnels] and [configs] have the same keys. *)
Theorem maps_stay_consistent (ssh : SSHConfig) (ops : list Op) m' out :
  execAll ops (NewManager ssh) = Done () m' out →
  dom (tunnelDones m') ⊆ dom (tunnels m') ∧ dom (tunnels m') = dom (configs m').
Proof.
  intros Hrun. eapply execAll_wf in Hrun; [apply Hrun|apply wf_NewManager].
Qed.

End reconcile_facts.

(** ** The manager: claims on single operations *)
Section manager_claims.
Context `{!tunnel.Lib}.
Import tunnel config manager.
Local Open Scope manager_scope.

Implicit Types (m : Manager) (name k : string) (cfg : TunnelConfig).

(** C5. [Add(cfg)] on a registered name returns the name-in-use error and
    leaves the manager as it was; on a free name it succeeds, registers the
    new tunnel and its config under the name, leaves every other field as
    it was (no supervisor is launched) and the new tunnel is Stopped. *)
Theorem Add_registers_or_rejects cfg m :
  (is_Some (tunnels m !! Name cfg) →
     Add cfg m = Done (Some (ErrAlreadyExists (Name cfg))) m []) ∧
  (tunnels m !! Name cfg = None →
     ∃ m' tun, Add cfg m = Done None m' [] ∧
       tun = NewTunnel (sshConfig m) (RemoteHost cfg) (RemotePort cfg) (LocalPort cfg) ∧
       tunnels m' = <[Name cfg := tun]> (tunnels m) ∧
       configs m' = <[Name cfg := cfg]> (configs m) ∧
       tunnelDones m' = tunnelDones m ∧
       sshConfig m' = sshConfig m ∧ done m' = done m ∧
       Tunnel_Status tun = StatusStopped).
Proof.
  rewrite Add_eq. unfold Add_result. split.
  - intros [tun ->]. done.
  - intros ->. eexists _, _. split_and!; try done. apply NewTunnel_Stopped.
Qed.

(** C9. [Remove(name)] cancels the supervisor of [name] before anything
    else. If the tunnel is Running and its Stop fails, [Remove] returns the
    stop error, the tunnel and its config are still registered and the
    supervisor entry is gone. If no tunnel is registered under [name],
    [Remove] returns the not-found error and a supervisor entry under
    [name] is gone all the same. *)
Theorem Remove_cancels_first name m :
  dones_open m →
  (∀ tun tun' err,
     tunnels m !! name = Some tun → Tunnel_Status tun = StatusRunning →
     Tunnel_Stop tun = (tun', Some err) →
     ∃ m', Remove name m = Done (Some (ErrFailedToStop name err)) m' [] ∧
       tunnels m' = <[name := tun']> (tunnels m) ∧
       configs m' = configs m ∧
       tunnelDones m' = delete name (tunnelDones m)) ∧
  (tunnels m !! name = None →
     ∃ m', Remove name m = Done (Some (ErrNotFound name)) m' [] ∧
       tunnels m' = tunnels m ∧ configs m' = configs m ∧
       tunnelDones m' = delete name (tunnelDones m)).
Proof.
  intros Hopen. rewrite Remove_open by done. unfold Remove_result. split.
  - intros tun tun' err -> Hrun Hstop. rewrite decide_True by done. rewrite Hstop.
    eexists. done.
  - intros ->. eexists. done.
Qed.

(** C6, as amended. When [c.Name] is not registered, [Add(c)] followed by
    [Remove(c.Name)] succeed and [List()] returns what it returned before
    the [Add]: the map of tunnels is the one before. *)
Theorem Add_Remove_restores_List (c : TunnelConfig) m :
  dones_open m → tunnels m !! Name c = None →
  ∃ m' names,
    (Add c;; Remove (Name c);; List) m = Done names m' [] ∧
    List m = Done names m [] ∧
    tunnels m' = tunnels m.
Proof.
  intros Hopen Hfree.
  unfold bind at 1. rewrite Add_eq. unfold Add_result. rewrite Hfree. cbn zeta.
  unfold bind at 1. rewrite Remove_open by done. unfold Remove_result. simpl.
  rewrite lookup_insert_eq, decide_False by (by rewrite NewTunnel_Stopped).
  unfold List. run. rewrite delete_insert_id by done.
  eexists _, _. split_and!; [reflexivity|reflexivity|].
  simpl. by rewrite delete_insert_id.
Qed.

(** C2, as amended. On a manager whose [done] channel is open, [Close()]
    returns with every supervisor cancelled, [Stop] called on every tunnel
    and the [done] channel closed; on a manager whose [done] channel is
    closed, that is on every later call, [Close()] panics. *)
Theorem Close_once m :
  dones_open m →
  (done m = chanOpen →
     ∃ r m' out, Close m = Done r m' out ∧
       tunnels m' = (λ tun, (Tunnel_Stop tun).1) <$> tunnels m ∧
       configs m' = configs m ∧
       tunnelDones m' = ∅ ∧ done m' = chanClosed ∧
       Close m' = Panic) ∧
  (done m = chanClosed → Close m = Panic).
Proof.
  intros Hopen. split; [|apply Close_closed].
  intros Hd. destruct (Close_open m Hd Hopen) as (r & m' & out & Hrun & ? & ? & ? & ? & ?).
  exists r, m', out. split_and!; try done. by apply Close_closed.
Qed.

End manager_claims.

(** ** Loading and reloading the config file *)
Section load_facts.
Context `{!tunnel.Lib}.
Import os config manager watcher.
Local Open Scope manager_scope.

Variable Unmarshal : string → error + Config.

(** The three ways [Load] fails. *)
Lemma Load_inl sys path err :
  Load Unmarshal sys path = inl err →
  (∃ e, ReadFile sys path = inl e ∧ err = ErrReadConfig e) ∨
  (∃ data e, ReadFile sys path = inr data ∧
     Unmarshal (ExpandEnv sys data) = inl e ∧ err = ErrParseConfig e) ∨
  (∃ data cfg e, ReadFile sys path = inr data ∧
     Unmarshal (ExpandEnv sys data) = inr cfg ∧ Validate cfg = Some e ∧
     err = ErrInvalidConfig e).
Proof.
  unfold Load. destruct (ReadFile sys path) as [e|data]; [intros [= <-]; eauto|].
  cbn zeta. destruct (Unmarshal (ExpandEnv sys data)) as [e|cfg] eqn:Hparse.
  { intros [= <-]. right; left. eauto. }
  destruct (Validate cfg) as [e|] eqn:Hval; [|done].
  intros [= <-]. right; right. eauto 10.
Qed.

Lemma Load_inr sys path cfg :
  Load Unmarshal sys path = inr cfg → Validate cfg = None.
Proof.
  unfold Load. destruct (ReadFile sys path) as [e|data]; [done|].
  cbn zeta. destruct (Unmarshal (ExpandEnv sys data)) as [e|cfg']; [done|].
  destruct (Validate cfg') eqn:Hval; [done|]. by intros [= <-].
Qed.

(** C3. When [Load] fails, which it does on a read, a parse or a validation
    error, [reload] logs the error and the manager is exactly what it was.
    When [Load] succeeds, the config it returns has passed validation and
    [reload] leaves the manager as [Reconcile] of that config leaves it. *)
Theorem reload_keeps_state_on_load_error sys (w : Watcher) (m : Manager) :
  (∀ err, Load Unmarshal sys (configPath w) = inl err →
     reload Unmarshal sys w m = Done () m [LogInvalidConfig err] ∧
     ((∃ e, ReadFile sys (configPath w) = inl e ∧ err = ErrReadConfig e) ∨
      (∃ data e, ReadFile sys (configPath w) = inr data ∧
         Unmarshal (ExpandEnv sys data) = inl e ∧ err = ErrParseConfig e) ∨
      (∃ data cfg e, ReadFile sys (configPath w) = inr data ∧
         Unmarshal (ExpandEnv sys data) = inr cfg ∧ Validate cfg = Some e ∧
         err = ErrInvalidConfig e))) ∧
  (∀ newConfig, Load Unmarshal sys (configPath w) = inr newConfig →
     Validate newConfig = None ∧
     (dones_open m →
      ∃ m' out, Reconcile newConfig m = Done None m' out ∧
        reload Unmarshal sys w m = Done () m' out)).
Proof.
  split.
  - intros err Hload. split; [|by apply Load_inl]. unfold reload. by rewrite Hload.
  - intros newConfig Hload. split; [by eapply Load_inr|]. intros Hopen.
    destruct (Reconcile_reconciled newConfig m Hopen) as (m' & out & Hrun & _).
    exists m', out. split; [done|]. unfold reload. rewrite Hload.
    unfold bind. rewrite Hrun. unfold ret. by rewrite app_nil_r.
Qed.

(** C10. [Load] hands to the YAML decoder the text of the file after
    [os.ExpandEnv]. In that expansion a [${name}] or a bare [$name] whose
    variable is not set is replaced by the empty string: the text before it
    (free of dollar signs) is kept and the expansion goes on after it.
    [Load] fails only on a read error, on a parse error of the expanded
    text or on a validation error of the decoded config. *)
Theorem Load_expands_unset_to_empty sys path :
  (∀ data, files sys !! path = Some data →
     Load Unmarshal sys path =
       match Unmarshal (ExpandEnv sys data) with
       | inl e => inl (ErrParseConfig e)
       | inr cfg =>
         match Validate cfg with
         | Some e => inl (ErrInvalidConfig e)
         | None => inr cfg
         end
       end) ∧
  (∀ pre name post,
     mentions "$" pre = false → name ≠ EmptyString → mentions "}" name = false →
     environ sys !! name = None →
     ExpandEnv sys (pre +:+ String "$" (String "{" (name +:+ String "}" post))) =
       pre +:+ ExpandEnv sys post) ∧
  (∀ pre c name post,
     mentions "$" pre = false →
     isAlphaNum c = true → isShellSpecialVar c = false →
     alphaNumPrefix name = String.length name → alphaNumPrefix post = O →
     environ sys !! String c name = None →
     ExpandEnv sys (pre +:+ String "$" (String c name +:+ post)) =
       pre +:+ ExpandEnv sys post) ∧
  (∀ err, Load Unmarshal sys path = inl err →
     (∃ e, ReadFile sys path = inl e ∧ err = ErrReadConfig e) ∨
     (∃ data e, ReadFile sys path = inr data ∧
        Unmarshal (ExpandEnv sys data) = inl e ∧ err = ErrParseConfig e) ∨
     (∃ data cfg e, ReadFile sys path = inr data ∧
        Unmarshal (ExpandEnv sys data) = inr cfg ∧ Validate cfg = Some e ∧
        err = ErrInvalidConfig e)).
Proof.
  split_and!.
  - intros data Hfile. unfold Load, ReadFile. by rewrite Hfile.
  - intros pre name post Hpre Hne Hname Hunset. apply Expand_braced; try done.
    unfold Getenv. by rewrite Hunset.
  - intros pre c name post Hpre Hc Hsp Hname Hpost Hunset. apply Expand_bare; try done.
    unfold Getenv. by rewrite Hunset.
  - intros err. apply Load_inl.
Qed.

End load_facts.

(** ** Examples on the tunnel library of the examples *)
Section examples.
Local Existing Instance tunnel_model.lib.
Import config.

(** C7, as stated, fails: a configuration whose SSH block is valid and whose
    tunnel list is empty meets every per-tunnel rule and is still rejected. *)
Lemma Validate_per_tunnel_rules_not_enough :
  let c := {| SSH := tunnel_model.testSSH; TunnelConfigs := [] |} in
  ¬ (Validate c = None ↔ tunnels_ok (TunnelConfigs c)).
Proof.
  intros c [_ Hc]. assert (Hok : tunnels_ok (TunnelConfigs c)).
  { repeat split; constructor. }
  specialize (Hc Hok). vm_compute in Hc. discriminate.
Qed.

Import tunnel manager scenarios.
Local Open Scope manager_scope.

(** C5 at a concrete input: [Add(cfgA)] on the empty manager. *)
Lemma Add_registers_or_rejects_witness :
  tunnels mgrEmpty !! Name cfgA = None ∧
  ∃ m' tun, Add cfgA mgrEmpty = Done None m' [] ∧
    tun = NewTunnel (sshConfig mgrEmpty) (RemoteHost cfgA) (RemotePort cfgA) (LocalPort cfgA) ∧
    tunnels m' = <[Name cfgA := tun]> (tunnels mgrEmpty) ∧
    configs m' = <[Name cfgA := cfgA]> (configs mgrEmpty) ∧
    tunnelDones m' = tunnelDones mgrEmpty ∧
    sshConfig m' = sshConfig mgrEmpty ∧ done m' = done mgrEmpty ∧
    Tunnel_Status tun = StatusStopped.
Proof.
  split; [reflexivity|].
  apply (proj2 (Add_registers_or_rejects cfgA mgrEmpty)). reflexivity.
Defined.

Lemma dones_open_mgrStuck : dones_open mgrStuck.
Proof.
  intros k c. unfold mgrStuck; simpl. rewrite lookup_singleton_Some. by intros [_ <-].
Qed.

Lemma dones_open_no_dones m : tunnelDones m = ∅ → dones_open m.
Proof. intros Hd k c. by rewrite Hd, lookup_empty. Qed.

(** C9 at a concrete input: the running tunnel [a] whose stop fails. *)
Lemma Remove_cancels_first_witness :
  ∃ m', Remove "a" mgrStuck =
          Done (Some (ErrFailedToStop "a" (LibError "StopTimeout"))) m' [] ∧
    tunnels m' = <[ "a" := (tunnel_model.Stop (stuck cfgA)).1 ]> (tunnels mgrStuck) ∧
    configs m' = configs mgrStuck ∧
    tunnelDones m' = delete "a" (tunnelDones mgrStuck).
Proof.
  apply (proj1 (Remove_cancels_first "a" mgrStuck dones_open_mgrStuck)
           (stuck cfgA) _ (LibError "StopTimeout")); reflexivity.
Defined.

(** C6, as stated, fails: [a] is registered, [Add] of a config named [a] is
    rejected and the [Remove] that follows deletes the registered tunnel. *)
Lemma Add_Remove_loses_registered_tunnel :
  List mgrA = Done ["a"] mgrA [] ∧
  ∃ m', (Add cfgA;; Remove (Name cfgA);; List) mgrA = Done [] m' [].
Proof. split; [reflexivity|]. eexists. vm_compute. reflexivity. Qed.

(** C6, as amended, at a concrete input. *)
Lemma Add_Remove_restores_List_witness :
  ∃ m' names,
    (Add cfgB;; Remove (Name cfgB);; List) mgrA = Done names m' [] ∧
    List mgrA = Done names mgrA [] ∧
    tunnels m' = tunnels mgrA.
Proof.
  apply (Add_Remove_restores_List cfgB mgrA).
  - apply dones_open_no_dones. reflexivity.
  - reflexivity.
Defined.

(** C2, as stated, fails: the second [Close()] panics. *)
Lemma Close_twice_panics :
  ∃ r m' out, Close mgrA = Done r m' out ∧ Close m' = Panic.
Proof. eexists _, _, _. split; vm_compute; reflexivity. Qed.

(** C2, as amended, at a concrete input. *)
Lemma Close_once_witness :
  ∃ r m' out, Close mgrA = Done r m' out ∧
    tunnels m' = (λ tun, (Tunnel_Stop tun).1) <$> tunnels mgrA ∧
    configs m' = configs mgrA ∧
    tunnelDones m' = ∅ ∧ done m' = chanClosed ∧
    Close m' = Panic.
Proof.
  apply (proj1 (Close_once mgrA (dones_open_no_dones mgrA eq_refl))). reflexivity.
Defined.

Lemma wf_mgrA : wf mgrA.
Proof.
  apply wf_entries. intros k. unfold entry_wf, view, mgrA. simpl.
  rewrite lookup_empty. destruct (decide (k = "a")) as [->|].
  - rewrite !lookup_singleton_eq. split_and!; try done. by intros ? [= <-].
  - rewrite !lookup_singleton_ne by done. split_and!; try done; by intros [? ?].
Qed.

Lemma wf_mgrStuck : wf mgrStuck.
Proof.
  apply wf_entries. intros k. unfold entry_wf, view, mgrStuck. simpl.
  destruct (decide (k = "a")) as [->|].
  - rewrite !lookup_singleton_eq. split_and!; try done.
    + by intros ? [= <-].
    + by intros ? [= <-].
  - rewrite !lookup_singleton_ne by done. split_and!; try done; by intros [? ?].
Qed.

(** C1, as stated, fails: tunnel [a] is not in the new configuration, it is
    running and its stop fails, so [Remove] fails and [a] stays registered
    next to [b]. *)
Lemma Reconcile_keeps_tunnel_that_fails_to_stop :
  ∃ m' out, Reconcile onlyB mgrStuck = Done None m' out ∧
    out = [LogRemoving "a";
           LogRemoveFailed "a" (ErrFailedToStop "a" (LibError "StopTimeout"));
           LogAdding "b"] ∧
    is_Some (tunnels m' !! "a") ∧
    dom (tunnels m') ≠ list_to_set (Name <$> TunnelConfigs onlyB).
Proof.
  eexists _, _. split; [vm_compute; reflexivity|]. split; [reflexivity|].
  split; [vm_compute; eauto|].
  intros Heq. assert (Hin : "a" ∈ dom (tunnels (set_tunnels id mgrStuck))).
  { apply elem_of_dom. vm_compute. eauto. }
  apply (f_equal (λ X : gset string, bool_decide ("a" ∈ X))) in Heq.
  vm_compute in Heq. discriminate.
Qed.

(** C1, as amended, at a concrete input. *)
Lemma Reconcile_names_and_configs_witness :
  ∃ m' out, Reconcile onlyB mgrA = Done None m' out ∧
    dom (tunnels m') = list_to_set (Name <$> TunnelConfigs onlyB) ∧
    configs m' !! "b" = Some cfgB.
Proof.
  destruct (Reconcile_names_and_configs onlyB mgrA wf_mgrA)
    as (m' & out & Hrun & _ & _ & Hdom & Hcfg & _).
  exists m', out. split; [exact Hrun|]. split.
  - apply Hdom. intros k tun Htun _ Hst.
    unfold mgrA in Htun; simpl in Htun.
    apply lookup_singleton_Some in Htun as [_ <-]. discriminate Hst.
  - apply Hcfg. reflexivity.
Defined.

(** C4, as stated, fails: the first [Reconcile] cannot remove [a], whose
    stop fails; the second one tries again, the stop succeeds and [a] is
    removed. *)
Lemma Reconcile_second_call_removes :
  ∃ m1 out1 m2 out2,
    Reconcile onlyB mgrStuck = Done None m1 out1 ∧
    Reconcile onlyB m1 = Done None m2 out2 ∧
    out2 = [LogRemoving "a"] ∧
    is_Some (tunnels m1 !! "a") ∧ tunnels m2 !! "a" = None.
Proof.
  eexists _, _, _, _. split; [vm_compute; reflexivity|].
  split; [vm_compute; reflexivity|].
  split; [reflexivity|]. split; vm_compute; eauto.
Qed.

(** C4, as amended, at a concrete input. *)
Lemma Reconcile_twice_witness :
  ∃ m1 out1, Reconcile onlyB mgrA = Done None m1 out1 ∧
    Reconcile onlyB m1 = Done None m1 [].
Proof.
  apply (Reconcile_twice onlyB mgrA wf_mgrA).
  intros k tun Htun _ Hst. unfold mgrA in Htun; simpl in Htun.
  apply lookup_singleton_Some in Htun as [_ <-]. discriminate Hst.
Defined.

(** C8 at a concrete input: a run that adds, starts, reconciles, stops
    everything and closes. *)
Lemma maps_stay_consistent_witness :
  ∃ m' out,
    execAll [OpAdd cfgA; OpStart "a"; OpReconcile onlyB; OpStopAll; OpClose]
      (NewManager tunnel_model.testSSH) = Done () m' out ∧
    dom (tunnelDones m') ⊆ dom (tunnels m') ∧ dom (tunnels m') = dom (configs m').
Proof.
  eexists _, _. split; [vm_compute; reflexivity|].
  eapply (@maps_stay_consistent tunnel_model.lib tunnel_model.testSSH
           [OpAdd cfgA; OpStart "a"; OpReconcile onlyB; OpStopAll; OpClose]).
  vm_compute. reflexivity.
Defined.

(** C3 at a concrete input: scenario 5, the file on disk has no tunnel. *)
Lemma reload_keeps_state_on_load_error_witness :
  watcher.reload (decodeOf "tunnels: []" noTunnels) diskNoTunnels theWatcher mgrA =
    Done () mgrA [LogInvalidConfig (ErrInvalidConfig ErrNoTunnels)].
Proof.
  apply (proj1 (reload_keeps_state_on_load_error
                  (decodeOf "tunnels: []" noTunnels) diskNoTunnels theWatcher mgrA)).
  reflexivity.
Defined.

(** C10 at a concrete input: the password line of the README with the
    variable not set. *)
Lemma Load_expands_unset_to_empty_witness :
  os.ExpandEnv diskNoTunnels "password: ${SSH_PASSWORD} # comment" =
    "password:  # comment" ∧
  os.ExpandEnv diskNoTunnels "password: $SSH_PASSWORD # comment" =
    "password:  # comment".
Proof.
  split.
  - apply (proj1 (proj2 (Load_expands_unset_to_empty
             (decodeOf "tunnels: []" noTunnels) diskNoTunnels "config.yaml"))
             "password: " "SSH_PASSWORD" " # comment"); reflexivity || discriminate.
  - apply (proj1 (proj2 (proj2 (Load_expands_unset_to_empty
             (decodeOf "tunnels: []" noTunnels) diskNoTunnels "config.yaml")))
             "password: " "S"%char "SH_PASSWORD" " # comment"); reflexivity.
Defined.

End examples.

(** * Further properties of the code *)

Ltac view_at k name :=
  intros k; unfold manager.view, manager.removed, manager.added_started,
    manager.restarted, manager.started; simpl;
  destruct (decide (k = name)) as [->|]; simpl;
  rewrite ?lookup_insert_eq, ?lookup_delete_eq;
  rewrite ?lookup_insert_ne, ?lookup_delete_ne by done.

(** ** Loops that collect a result *)
Section collecting_loops.
Context `{!tunnel.Lib}.
Import tunnel config manager.
Local Open Scope manager_scope.

Implicit Types (m : Manager) (name k : string) (cfg : TunnelConfig) (e : entry).


Lemma foldl_agree {A B} (f g : B → A → B) (l : list A) (acc : B) :
  (∀ a x, x ∈ l → f a x = g a x) → foldl f acc l = foldl g acc l.
Proof.
  revert acc. induction l as [|x l IH]; intros acc Hfg; [done|]. simpl.
  rewrite Hfg by left. apply IH. intros a y Hy. apply Hfg. by right.
Qed.

(** The loop of [forEach_keyed] around a local variable: no step logs, each
    step touches the entry of its own name and updates the variable from
    that entry. The variable ends as the fold of the updates over the
    entries as they were at the start. *)
Lemma forEachAcc_fold {A B} (key : A → string) (F : A → entry → entry)
    (g : A → entry → B → B) (I : Manager → Prop)
    (body : B → A → M Manager B) (l : list A) (acc : B) m :
  NoDup (key <$> l) →
  (∀ acc x m, x ∈ l → I m →
     ∃ m', body acc x m = Done (g x (view m (key x)) acc) m' [] ∧ I m' ∧
       ∀ k, view m' k = if decide (k = key x) then F x (view m k) else view m k) →
  I m →
  ∃ m', forEachAcc l acc body m =
          Done (foldl (λ a x, g x (view m (key x)) a) acc l) m' [] ∧ I m' ∧
    (∀ x, x ∈ l → view m' (key x) = F x (view m (key x))) ∧
    (∀ k, k ∉ key <$> l → view m' k = view m k).
Proof.
  revert acc m. induction l as [|x l IH]; intros acc m Hnd Hbody HI.
  { exists m. split_and!; try done. intros x Hx. by apply elem_of_nil in Hx. }
  rewrite fmap_cons in Hnd. apply NoDup_cons in Hnd as [Hx Hnd].
  destruct (Hbody acc x m) as (m1 & Hrun1 & HI1 & Hv1); [by left|done|].
  destruct (IH (g x (view m (key x)) acc) m1) as (m' & Hrun & HI' & Hin & Hout);
    [done| |done|].
  { intros acc2 y m2 Hy. apply Hbody. by right. }
  assert (Hsame : ∀ y, y ∈ l → view m1 (key y) = view m (key y)).
  { intros y Hy. rewrite Hv1, decide_False; [done|].
    intros Heq. apply Hx. rewrite <- Heq. by apply list_elem_of_fmap_2. }
  exists m'. split_and!; try done.
  - cbn [forEachAcc foldl]. unfold bind. rewrite Hrun1, Hrun. f_equal.
    apply foldl_agree. intros a y Hy. by rewrite Hsame.
  - intros y [->|Hy]%elem_of_cons.
    + rewrite Hout by done. rewrite Hv1. by rewrite decide_True.
    + rewrite Hin by done. by rewrite Hsame.
  - intros k Hk. rewrite fmap_cons in Hk. apply not_elem_of_cons in Hk as [Hkx Hk].
    rewrite Hout by done. rewrite Hv1. by rewrite decide_False.
Qed.

(** The map of failures filled by a loop that visits no name twice. *)
Lemma lookup_failures {A} (key : A → string) (E : A → option error) (l : list A)
    (acc : gmap string error) k :
  NoDup (key <$> l) →
  let errors :=
    foldl (λ a x, match E x with Some err => <[key x := err]> a | None => a end) acc l in
  (∀ x, x ∈ l → key x = k →
     errors !! k = if E x is Some err then Some err else acc !! k) ∧
  (k ∉ key <$> l → errors !! k = acc !! k).
Proof.
  revert acc. induction l as [|x l IH]; intros acc Hnd errors.
  { split; [|done]. intros x Hx. by apply elem_of_nil in Hx. }
  rewrite fmap_cons in Hnd. apply NoDup_cons in Hnd as [Hx Hnd].
  subst errors. cbn [foldl].
  set (acc1 := match E x with Some err => <[key x := err]> acc | None => acc end).
  destruct (IH acc1 Hnd) as [IH1 IH2]. cbn zeta in IH1, IH2.
  assert (Hacc1 : ∀ j, j ≠ key x → acc1 !! j = acc !! j).
  { intros j Hj. subst acc1. destruct (E x); [by rewrite lookup_insert_ne|done]. }
  split.
  - intros y [->|Hy]%elem_of_cons Hk.
    + subst k. rewrite IH2 by done. subst acc1.
      destruct (E x); [by rewrite lookup_insert_eq|done].
    + rewrite (IH1 y Hy Hk). rewrite Hacc1; [done|].
      intros Heq. apply Hx. rewrite <- Heq, <- Hk. by apply list_elem_of_fmap_2.
  - intros Hk. rewrite fmap_cons in Hk. apply not_elem_of_cons in Hk as [Hkx Hk].
    rewrite IH2 by done. by apply Hacc1.
Qed.

Lemma Start_started name m :
  dones_open m →
  ∃ m', manager.Start name m = Done (startError name (view m name)) m' [] ∧
    dones_open m' ∧ sshConfig m' = sshConfig m ∧ done m' = done m ∧
    ∀ k, view m' k = if decide (k = name) then started name (view m k) else view m k.
Proof.
  intros Hopen. rewrite Start_open by done. unfold Start_result, startError, started.
  cbn [view e_tunnel e_config e_done].
  destruct (tunnels m !! name) as [tun|] eqn:Htun.
  - destruct (Tunnel_Start tun) as [tun' [err|]] eqn:Hstart; cbn [fst snd fmap option_fmap option_map];
      [|destruct (Enabled _) eqn:Hen].
    all: eexists; split; [reflexivity|].
    all: split_and!; try done; try (by apply dones_open_insert).
    all: view_at k name; try done; rewrite ?Htun; simpl; rewrite ?Hstart; simpl;
      rewrite ?Hen; done.
  - exists m. split_and!; try done. view_at k name; by rewrite ?Htun.
Qed.

(** [StartAll] *)
Lemma StartAll_started m :
  dones_open m →
  ∃ errors m', StartAll m = Done errors m' [] ∧
    dones_open m' ∧ sshConfig m' = sshConfig m ∧ done m' = done m ∧
    (∀ k, view m' k = started k (view m k)) ∧
    (∀ k, errors !! k = if tunnels m !! k is Some _ then startError k (view m k) else None).
Proof.
  intros Hopen. unfold StartAll. unfold bind at 1. rewrite List_eq.
  pose (I := λ m', dones_open m' ∧ sshConfig m' = sshConfig m ∧ done m' = done m).
  pose (E := λ name, startError name (view m name)).
  match goal with |- context [forEachAcc ?l ?acc ?body m] =>
    destruct (forEachAcc_fold id (λ name e, started name e)
                (λ name e (a : gmap string error),
                   match startError name e with
                   | Some err => <[name := err]> a
                   | None => a
                   end)
                I body l acc m) as (m' & Hrun & (? & ? & ?) & Hin & Hout)
  end.
  - rewrite list_fmap_id. apply NoDup_fst_map_to_list.
  - intros acc name m1 _ (Hopen1 & Hssh1 & Hd1). unfold id.
    destruct (Start_started name m1 Hopen1) as (m2 & Hrun & ? & ? & ? & Hv).
    exists m2. unfold bind. rewrite Hrun.
    split; [by destruct (startError name (view m1 name))|].
    split; [|done]. unfold I. split_and!; [done|congruence|congruence].
  - done.
  - rewrite Hrun. eexists _, m'. split; [reflexivity|]. split_and!; try done.
    + intros k. destruct (tunnels m !! k) as [tun|] eqn:Htun.
      * apply (Hin k). apply elem_of_keys. eauto.
      * rewrite Hout.
        -- unfold started, view. simpl. by rewrite Htun.
        -- rewrite list_fmap_id, elem_of_keys, Htun. by intros [? ?].
    + intros k. cbv [id].
      destruct (lookup_failures id E (map_to_list (tunnels m)).*1 ∅ k) as [Hf1 Hf2].
      { rewrite list_fmap_id. apply NoDup_fst_map_to_list. }
      cbn zeta in Hf1, Hf2. unfold id, E in Hf1, Hf2.
      destruct (tunnels m !! k) as [tun|] eqn:Htun.
      * rewrite (Hf1 k); [|apply elem_of_keys; eauto|done].
        destruct (startError k (view m k)); [done|]. by rewrite lookup_empty.
      * rewrite Hf2; [by rewrite lookup_empty|].
        rewrite list_fmap_id, elem_of_keys, Htun. by intros [? ?].
Qed.

(** X1. [StartAll] returns without logging; it calls [Start] once on every
    registered tunnel and keeps the names and the configs; the map it
    returns holds, under the name of each tunnel whose [Start] failed, that
    failure wrapped as a start error, and nothing else; a supervisor is
    launched for the tunnels that started and whose config enables
    auto-restart, every other supervisor entry is kept. *)
Theorem StartAll_starts_every_tunnel m :
  dones_open m →
  ∃ errors m', StartAll m = Done errors m' [] ∧
    tunnels m' = (λ tun, (Tunnel_Start tun).1) <$> tunnels m ∧
    configs m' = configs m ∧
    (∀ k, errors !! k =
       tunnels m !! k ≫= λ tun, ErrFailedToStart k <$> (Tunnel_Start tun).2) ∧
    (∀ k, tunnelDones m' !! k =
       match tunnels m !! k with
       | Some tun =>
         if bool_decide ((Tunnel_Start tun).2 = None) &&
            Enabled (AutoRestart (default zeroTunnelConfig (configs m !! k)))
         then Some chanOpen else tunnelDones m !! k
       | None => tunnelDones m !! k
       end).
Proof.
  intros Hopen.
  destruct (StartAll_started m Hopen) as (errors & m' & Hrun & _ & _ & _ & Hv & Herr).
  exists errors, m'. split; [done|].
  assert (Ht : ∀ k, tunnels m' !! k = e_tunnel (started k (view m k))).
  { intros k. by rewrite <- Hv. }
  assert (Hc : ∀ k, configs m' !! k = e_config (started k (view m k))).
  { intros k. by rewrite <- Hv. }
  assert (Hd : ∀ k, tunnelDones m' !! k = e_done (started k (view m k))).
  { intros k. by rewrite <- Hv. }
  split_and!.
  - apply map_eq. intros k. rewrite Ht, lookup_fmap. unfold started, view. simpl.
    by destruct (tunnels m !! k).
  - apply map_eq. intros k. rewrite Hc. unfold started, view. simpl.
    by destruct (tunnels m !! k).
  - intros k. rewrite Herr. unfold startError, view. simpl.
    by destruct (tunnels m !! k).
  - intros k. rewrite Hd. unfold started, view. simpl.
    destruct (tunnels m !! k) as [tun|]; [|done]. simpl.
    destruct (Tunnel_Start tun).2; simpl; done.
Qed.

Lemma Stop_each (l : list (string * Tunnel)) m :
  NoDup l.*1 →
  ∃ m', forEachAcc l ∅ (λ errors '(name, tun),
          err ← callTunnel name Tunnel_Stop tun;
          match err with
          | Some err => ret (<[name := err]> errors)
          | None => ret errors
          end) m =
        Done (foldl (λ (a : gmap string error) x,
                match (Tunnel_Stop x.2).2 with
                | Some err => <[x.1 := err]> a
                | None => a
                end) ∅ l) m' [] ∧
    sshConfig m' = sshConfig m ∧ done m' = done m ∧
    (∀ x, x ∈ l →
       view m' x.1 = Entry (Some (Tunnel_Stop x.2).1) (configs m !! x.1)
                       (tunnelDones m !! x.1)) ∧
    (∀ k, k ∉ l.*1 → view m' k = view m k).
Proof.
  intros Hnd.
  pose (I := λ m', sshConfig m' = sshConfig m ∧ done m' = done m).
  match goal with |- context [forEachAcc l ?acc ?body m] =>
    destruct (forEachAcc_fold fst
                (λ x e, Entry (Some (Tunnel_Stop x.2).1) (e_config e) (e_done e))
                (λ x e (a : gmap string error),
                   match (Tunnel_Stop x.2).2 with
                   | Some err => <[x.1 := err]> a
                   | None => a
                   end)
                I body l acc m) as (m' & Hrun & (? & ?) & Hin & Hout)
  end; [done| |done|].
  - intros acc [name tun] m1 _ [? ?]. cbn [fst snd].
    unfold bind, callTunnel, modify, ret.
    destruct (Tunnel_Stop tun) as [tun' [err|]]; simpl;
      eexists; (split; [reflexivity|]); (split; [done|]).
    all: view_at k name; done.
  - exists m'. split_and!; done.
Qed.

(** X2. [StopAll] returns without logging and without panic; it cancels
    every supervisor, calls [Stop] once on every registered tunnel, whatever
    its status, and keeps the names and the configs; the map it returns
    holds, under the name of each tunnel whose [Stop] failed, that very
    error, and nothing else. *)
Theorem StopAll_stops_every_tunnel m :
  dones_open m →
  ∃ errors m', StopAll m = Done errors m' [] ∧
    tunnels m' = (λ tun, (Tunnel_Stop tun).1) <$> tunnels m ∧
    configs m' = configs m ∧ tunnelDones m' = ∅ ∧
    sshConfig m' = sshConfig m ∧ done m' = done m ∧
    (∀ k, errors !! k = tunnels m !! k ≫= λ tun, (Tunnel_Stop tun).2).
Proof.
  intros Hopen. unfold StopAll, bind at 1, get. unfold bind at 1.
  rewrite cancel_all; last first.
  { apply Forall_forall. intros [k c] Hin%elem_of_map_to_list. by apply (Hopen k). }
  cbn beta iota. unfold bind at 1, get.
  set (m1 := set_tunnelDones _ m).
  assert (Hd : tunnelDones m1 = ∅).
  { apply map_eq. intros k. subst m1. simpl. rewrite lookup_foldl_delete, lookup_empty.
    case_decide as Hk; [done|]. apply not_elem_of_dom. intros Hin. apply Hk.
    apply elem_of_dom in Hin as [c Hc]. apply list_elem_of_fmap. exists (k, c).
    split; [done|]. by apply elem_of_map_to_list. }
  destruct (Stop_each (map_to_list (tunnels m1)) m1) as (m' & Hrun & ? & ? & Hin & Hout).
  { apply NoDup_fst_map_to_list. }
  rewrite Hrun. eexists _, m'. split; [reflexivity|].
  change (tunnels m1) with (tunnels m) in *. change (configs m1) with (configs m) in *.
  assert (Hv : ∀ k, view m' k =
    Entry ((λ tun, (Tunnel_Stop tun).1) <$> tunnels m !! k) (configs m !! k) None).
  { intros k. destruct (tunnels m !! k) as [tun|] eqn:Htun.
    - pose proof (Hin (k, tun)) as Hk. cbn [fst snd] in Hk.
      rewrite Hk by (by apply elem_of_map_to_list). by rewrite Hd, lookup_empty.
    - rewrite Hout.
      + unfold view. rewrite Hd, lookup_empty.
        change (tunnels m1) with (tunnels m). by rewrite Htun.
      + rewrite elem_of_keys, Htun. by intros [? ?]. }
  split_and!; try done.
  - apply map_eq. intros k. rewrite lookup_fmap. exact (f_equal e_tunnel (Hv k)).
  - apply map_eq. intros k. exact (f_equal e_config (Hv k)).
  - apply map_eq. intros k. rewrite lookup_empty. exact (f_equal e_done (Hv k)).
  - intros k.
    destruct (lookup_failures fst (λ x : string * Tunnel, (Tunnel_Stop x.2).2)
                (map_to_list (tunnels m)) ∅ k) as [Hf1 Hf2].
    { apply NoDup_fst_map_to_list. }
    cbn zeta in Hf1, Hf2.
    destruct (tunnels m !! k) as [tun|] eqn:Htun.
    + rewrite (Hf1 (k, tun)); [|by apply elem_of_map_to_list|done]. simpl.
      destruct (Tunnel_Stop tun).2; [done|]. by rewrite lookup_empty.
    + rewrite Hf2; [by rewrite lookup_empty|].
      rewrite elem_of_keys, Htun. by intros [? ?].
Qed.

End collecting_loops.

(** ** Single methods *)
Section more_methods.
Context `{!tunnel.Lib}.
Import tunnel config manager.
Local Open Scope manager_scope.

Implicit Types (m : Manager) (name k : string) (cfg : TunnelConfig) (e : entry).

(** X3. [Remove(name)] returns without logging. It returns no error exactly
    when a tunnel is registered under [name] and that tunnel is not Running
    or its [Stop] succeeds; then [name] is gone from the three maps. In
    every case the entries of the other names, the SSH config and the
    [done] channel are left as they were. *)
Theorem Remove_succeeds_iff name m :
  dones_open m →
  ∃ r m', Remove name m = Done r m' [] ∧
    (r = None ↔
       ∃ tun, tunnels m !! name = Some tun ∧
         (Tunnel_Status tun ≠ StatusRunning ∨ (Tunnel_Stop tun).2 = None)) ∧
    (r = None →
       tunnels m' !! name = None ∧ configs m' !! name = None ∧
       tunnelDones m' !! name = None) ∧
    (∀ k, k ≠ name → view m' k = view m k) ∧
    sshConfig m' = sshConfig m ∧ done m' = done m.
Proof.
  intros Hopen. rewrite Remove_open by done. unfold Remove_result.
  destruct (tunnels m !! name) as [tun|] eqn:Htun;
    [destruct (decide (Tunnel_Status tun = StatusRunning)) as [Hst|Hst];
     [destruct (Tunnel_Stop tun) as [tun' [err|]] eqn:Hstop|]|].
  all: eexists _, _; (split; [reflexivity|]); split_and!; try done.
  all: try (intros k Hk; unfold view; simpl;
            by rewrite ?lookup_insert_ne, ?lookup_delete_ne by done).
  all: try (intros _; simpl; by rewrite !lookup_delete_eq).
  - split; [intros [=]|]. intros (tun0 & [= <-] & [Hn|Herr]); [by destruct Hn|].
    rewrite Hstop in Herr. done.
  - split; [|done]. intros _. exists tun. split; [done|]. right. by rewrite Hstop.
  - split; [|done]. intros _. exists tun. split; [done|]. by left.
  - split; [intros [=]|]. by intros (tun0 & ? & _).
Qed.

(** X4. [Start(name)] followed by [Stop(name)] returns without logging and
    leaves no supervisor entry under [name], whatever the two calls return.
    On a registered name the tunnel has gone through [Start] and then
    through [Stop] (also when [Start] failed); the configs, the other
    tunnels and the other supervisors are left as they were. *)
Theorem Start_then_Stop_cancels_supervisor name m :
  dones_open m →
  ∃ r1 r2 m',
    (r1 ← manager.Start name; r2 ← manager.Stop name; ret (r1, r2)) m =
      Done (r1, r2) m' [] ∧
    tunnelDones m' = delete name (tunnelDones m) ∧
    tunnels m' = alter (λ tun, (Tunnel_Stop (Tunnel_Start tun).1).1) name (tunnels m) ∧
    configs m' = configs m.
Proof.
  intros Hopen.
  destruct (Start_started name m Hopen) as (m1 & Hrun1 & Hopen1 & _ & _ & Hv1).
  unfold bind at 1. rewrite Hrun1. unfold bind at 1.
  rewrite Stop_open by done. unfold Stop_result.
  assert (Ht : ∀ k, tunnels m1 !! k =
                     e_tunnel (if decide (k = name) then started name (view m k)
                               else view m k)).
  { intros k. by rewrite <- Hv1. }
  assert (Hc : ∀ k, configs m1 !! k =
                     e_config (if decide (k = name) then started name (view m k)
                               else view m k)).
  { intros k. by rewrite <- Hv1. }
  assert (Hd : ∀ k, tunnelDones m1 !! k =
                     e_done (if decide (k = name) then started name (view m k)
                             else view m k)).
  { intros k. by rewrite <- Hv1. }
  assert (Hcfg : configs m1 = configs m).
  { apply map_eq. intros k. rewrite Hc. unfold started, view.
    case_decide; [|done]. subst k. simpl. by destruct (tunnels m !! name). }
  assert (Hdel : delete name (tunnelDones m1) = delete name (tunnelDones m)).
  { apply map_eq. intros k. destruct (decide (k = name)) as [->|Hk].
    - by rewrite !lookup_delete_eq.
    - rewrite !lookup_delete_ne by done. rewrite Hd. by rewrite decide_False. }
  pose proof (Ht name) as Htn. rewrite decide_True in Htn by done.
  unfold started, view in Htn. simpl in Htn.
  destruct (tunnels m !! name) as [tun|] eqn:Htun; simpl in Htn; rewrite Htn.
  - eexists _, _, _. split; [reflexivity|]. simpl. split_and!; try done.
    apply map_eq. intros k. destruct (decide (k = name)) as [->|Hk].
    + by rewrite lookup_insert_eq, lookup_alter_eq, Htun.
    + rewrite lookup_insert_ne, lookup_alter_ne by done.
      rewrite Ht, decide_False by done. done.
  - eexists _, _, _. split; [reflexivity|]. simpl. split_and!; try done.
    apply map_eq. intros k. destruct (decide (k = name)) as [->|Hk].
    + by rewrite lookup_alter_eq, Htun, Htn.
    + rewrite lookup_alter_ne by done. rewrite Ht, decide_False by done. done.
Qed.

(** *** [HealthCheck] and [Unhealthy] *)






End more_methods.

(** ** The supervisor *)
Section supervisor_facts.
Context `{!tunnel.Lib}.
Import tunnel config manager.
Local Open Scope manager_scope.

Implicit Types (m : Manager) (name k : string).

Lemma supervisorTick_eq name m :
  supervisorTick name m =
  match tunnels m !! name with
  | None => Done false m []
  | Some tun =>
    if bool_decide (Tunnel_Status tun = StatusError) ||
       negb (bool_decide (Tunnel_LastError tun = None))
    then Done true (set_tunnels <[name := (Tunnel_Restart tun).1]> m) []
    else Done true m []
  end.
Proof.
  unfold supervisorTick, bind at 1, get.
  destruct (tunnels m !! name) as [tun|] eqn:Htun; [|done].
  destruct (_ || _); [|done].
  unfold bind. rewrite Restart_eq. unfold Restart_result. by rewrite Htun.
Qed.

(** X6. A tick of the supervisor of [name] always returns, never panics
    and logs nothing. It stops the supervisor exactly when no tunnel is
    registered under [name]. It leaves the configs, the supervisor entries,
    the SSH config and every other tunnel as they were; the tunnel of [name]
    goes through [Restart] when its status is Error or it has a last error,
    whatever [Restart] returns, and is left alone otherwise. *)
Theorem supervisorTick_touches_one_tunnel name m :
  ∃ goOn m', supervisorTick name m = Done goOn m' [] ∧
    (goOn = false ↔ tunnels m !! name = None) ∧
    configs m' = configs m ∧ tunnelDones m' = tunnelDones m ∧
    sshConfig m' = sshConfig m ∧ done m' = done m ∧
    (∀ k, k ≠ name → tunnels m' !! k = tunnels m !! k) ∧
    tunnels m' !! name =
      (λ tun, if bool_decide (Tunnel_Status tun = StatusError ∨
                              Tunnel_LastError tun ≠ None)
              then (Tunnel_Restart tun).1 else tun) <$> tunnels m !! name.
Proof.
  rewrite supervisorTick_eq.
  destruct (tunnels m !! name) as [tun|] eqn:Htun.
  - destruct (bool_decide (Tunnel_Status tun = StatusError)) eqn:Hst;
      [|destruct (bool_decide (Tunnel_LastError tun = None)) eqn:Herr]; simpl.
    all: eexists _, _; (split; [reflexivity|]); split_and!; try done; simpl.
    all: try (intros k Hk; by rewrite lookup_insert_ne).
    all: rewrite ?lookup_insert_eq, ?Htun; simpl; f_equal.
    + apply bool_decide_eq_true in Hst. by rewrite bool_decide_eq_true_2 by (by left).
    + apply bool_decide_eq_false in Hst. apply bool_decide_eq_true in Herr.
      rewrite bool_decide_eq_false_2; [done|]. intros [?|?]; done.
    + apply bool_decide_eq_false in Herr. by rewrite bool_decide_eq_true_2 by (by right).
  - exists false, m. split_and!; done.
Qed.

Lemma supervisorTick_wf name m goOn m' out :
  wf m → supervisorTick name m = Done goOn m' out → wf m'.
Proof.
  intros Hwf. rewrite supervisorTick_eq.
  destruct (tunnels m !! name) as [tun|] eqn:Htun; [|by intros [= _ <- _]].
  destruct (_ || _); [|by intros [= _ <- _]]. intros [= _ <- _].
  destruct (Restart_wf name m Hwf) as (r & m1 & out1 & Hrun & Hwf1).
  rewrite Restart_eq in Hrun. unfold Restart_result in Hrun. rewrite Htun in Hrun.
  by injection Hrun as _ <- _.
Qed.

Lemma execSteps_wf sts m m' out : wf m → execSteps sts m = Done () m' out → wf m'.
Proof.
  revert m out. induction sts as [|st sts IH]; intros m out Hwf Hrun.
  { by injection Hrun as <- <-. }
  unfold execSteps in Hrun. cbn [forEach] in Hrun.
  apply bind_Done in Hrun as ([] & m1 & out1 & out2 & Hrun1 & Hrun2 & _).
  eapply IH; [|exact Hrun2]. destruct st as [op|name]; simpl in Hrun1.
  - by eapply exec_wf.
  - apply bind_Done in Hrun1 as (b & m2 & o1 & o2 & Htick & [= <- _] & _).
    by eapply supervisorTick_wf.
Qed.

(** X7. From a new manager, after any sequence of method calls with ticks
    of supervisors between them that has returned, every key of
    [tunnelDones] is a key of [tunnels], [tunnels] and [configs] have the
    same keys, every config is stored under its own name and every cancel
    channel in [tunnelDones] is open. *)
Theorem maps_stay_consistent_under_ticks (ssh : SSHConfig) (sts : list Step) m' out :
  execSteps sts (NewManager ssh) = Done () m' out →
  dom (tunnelDones m') ⊆ dom (tunnels m') ∧ dom (tunnels m') = dom (configs m') ∧
  (∀ k cfg, configs m' !! k = Some cfg → Name cfg = k) ∧
  (∀ k c, tunnelDones m' !! k = Some c → c = chanOpen).
Proof.
  intros Hrun. eapply execSteps_wf in Hrun; [|apply wf_NewManager].
  destruct Hrun as ((? & ?) & ? & ?). done.
Qed.

End supervisor_facts.

(** ** [Reconcile], tunnel by tunnel *)
Section reconcile_more.
Context `{!tunnel.Lib}.
Import tunnel config manager.
Local Open Scope manager_scope.

Implicit Types (m : Manager) (name k : string) (cfg old nc : TunnelConfig).

Lemma tunnelConfigChanged_fields old nc :
  tunnelConfigChanged old nc = false ↔
  RemoteHost old = RemoteHost nc ∧ RemotePort old = RemotePort nc ∧
  LocalPort old = LocalPort nc ∧
  Enabled (AutoRestart old) = Enabled (AutoRestart nc) ∧
  Interval (AutoRestart old) = Interval (AutoRestart nc).
Proof.
  unfold tunnelConfigChanged.
  repeat case_decide; split; intros Heq; try done;
    try (destruct Heq as (? & ? & ? & ? & ?); done).
Qed.

(** X8. [Reconcile(new)] leaves a tunnel alone when it is registered, new
    has an entry of its name and the stored config agrees with that entry
    on remoteHost, remotePort, localPort and both autoRestart fields: its
    tunnel, its stored config and its supervisor entry are exactly as
    before. A name that is neither registered nor in new is left alone as
    well. *)
Theorem Reconcile_leaves_unchanged_tunnels (new : Config) m :
  dones_open m →
  ∃ m' out, Reconcile new m = Done None m' out ∧
    (∀ k old nc,
       is_Some (tunnels m !! k) → configs m !! k = Some old →
       newConfigsOf (TunnelConfigs new) !! k = Some nc →
       RemoteHost old = RemoteHost nc → RemotePort old = RemotePort nc →
       LocalPort old = LocalPort nc →
       Enabled (AutoRestart old) = Enabled (AutoRestart nc) →
       Interval (AutoRestart old) = Interval (AutoRestart nc) →
       tunnels m' !! k = tunnels m !! k ∧ configs m' !! k = Some old ∧
       tunnelDones m' !! k = tunnelDones m !! k) ∧
    (∀ k, tunnels m !! k = None → k ∉ Name <$> TunnelConfigs new →
       tunnels m' !! k = None ∧ configs m' !! k = configs m !! k ∧
       tunnelDones m' !! k = tunnelDones m !! k).
Proof.
  intros Hopen.
  destruct (Reconcile_reconciled new m Hopen) as (m' & out & Hrun & _ & _ & _ & Hv).
  exists m', out. split; [done|]. split.
  - intros k old nc [tun Htun] Hold Hnc H1 H2 H3 H4 H5.
    assert (Hch : tunnelConfigChanged old nc = false).
    { by apply tunnelConfigChanged_fields. }
    specialize (Hv k). unfold reconciled in Hv. rewrite Hnc, Htun in Hv.
    unfold restarted, view in Hv. simpl in Hv. rewrite Hold, Hch in Hv.
    injection Hv as -> -> ->. by rewrite ?Htun.
  - intros k Htun Hnew. apply newConfigsOf_None in Hnew.
    specialize (Hv k). unfold reconciled in Hv. rewrite Hnew, Htun in Hv.
    unfold view in Hv. injection Hv as -> -> ->. by rewrite Htun.
Qed.

(** X9. When a tunnel is registered and its stored config differs from the
    entry of its name in new in one of the five compared fields,
    [Reconcile(new)] stores the new entry and the tunnel goes through
    [Restart]: the registered tunnel is the one that was there, restarted,
    not a tunnel built from the new entry, and the supervisor entry of the
    name is neither cancelled nor created. *)
Theorem Reconcile_restarts_changed_tunnel (new : Config) m k tun old nc :
  dones_open m →
  tunnels m !! k = Some tun → configs m !! k = Some old →
  newConfigsOf (TunnelConfigs new) !! k = Some nc →
  tunnelConfigChanged old nc = true →
  ∃ m' out, Reconcile new m = Done None m' out ∧
    tunnels m' !! k = Some (Tunnel_Restart tun).1 ∧
    configs m' !! k = Some nc ∧
    tunnelDones m' !! k = tunnelDones m !! k.
Proof.
  intros Hopen Htun Hold Hnc Hch.
  destruct (Reconcile_reconciled new m Hopen) as (m' & out & Hrun & _ & _ & _ & Hv).
  exists m', out. split; [done|].
  specialize (Hv k). unfold reconciled in Hv. rewrite Hnc, Htun in Hv.
  unfold restarted, view in Hv. simpl in Hv. rewrite Hold, Hch in Hv.
  injection Hv as -> -> ->. by rewrite Htun.
Qed.

(** X10. For a name of new that is not registered, [Reconcile(new)]
    registers a tunnel built by [NewTunnel] from the SSH config of new (not
    from the one the manager had) and the entry of new, stores that entry,
    and calls [Start] on the tunnel; the tunnel stays registered when
    [Start] fails, and a supervisor is launched exactly when [Start]
    succeeds and the entry enables auto-restart. *)
Theorem Reconcile_adds_and_starts (new : Config) m k nc :
  dones_open m →
  tunnels m !! k = None →
  newConfigsOf (TunnelConfigs new) !! k = Some nc →
  ∃ m' out tun, Reconcile new m = Done None m' out ∧
    tun = NewTunnel (SSH new) (RemoteHost nc) (RemotePort nc) (LocalPort nc) ∧
    tunnels m' !! k = Some (Tunnel_Start tun).1 ∧
    configs m' !! k = Some nc ∧
    tunnelDones m' !! k =
      if bool_decide ((Tunnel_Start tun).2 = None) && Enabled (AutoRestart nc)
      then Some chanOpen else tunnelDones m !! k.
Proof.
  intros Hopen Htun Hnc.
  destruct (Reconcile_reconciled new m Hopen) as (m' & out & Hrun & _ & _ & _ & Hv).
  exists m', out, (NewTunnel (SSH new) (RemoteHost nc) (RemotePort nc) (LocalPort nc)).
  split; [done|]. split; [done|].
  specialize (Hv k). unfold reconciled in Hv. rewrite Hnc, Htun in Hv.
  unfold added_started, view in Hv. simpl in Hv. rewrite Htun in Hv.
  injection Hv as -> -> ->. split_and!; try done.
  by destruct (Tunnel_Start _).2.
Qed.

(** X11. After [Reconcile(new)] on a well-formed manager no supervisor
    entry is left under a name that is not in new: a tunnel that
    [Reconcile] failed to remove stays registered without supervisor. *)
Theorem Reconcile_leaves_no_supervisor_outside_new (new : Config) m :
  wf m →
  ∃ m' out, Reconcile new m = Done None m' out ∧
    ∀ k, k ∉ Name <$> TunnelConfigs new → tunnelDones m' !! k = None.
Proof.
  intros Hwf.
  destruct (Reconcile_reconciled new m) as (m' & out & Hrun & _ & _ & _ & Hv);
    [apply Hwf|].
  exists m', out. split; [done|]. intros k Hnew. apply newConfigsOf_None in Hnew.
  pose proof (f_equal e_done (Hv k)) as Hd. simpl in Hd. rewrite Hd.
  unfold reconciled. rewrite Hnew.
  apply wf_entries with (k := k) in Hwf as (Hdt & _). simpl in Hdt.
  destruct (tunnels m !! k) as [tun|] eqn:Htun.
  - unfold removed, view. simpl. rewrite Htun.
    case_decide; [|done]. by destruct (Tunnel_Stop tun) as [? [?|]].
  - unfold view. simpl. destruct (tunnelDones m !! k) eqn:Hdk; [|done].
    destruct Hdt as [? ?]; [eauto|done].
Qed.


End reconcile_more.

(** ** Startup: [main] from the loaded config to the status lines *)
Section startup.
Context `{!tunnel.Lib}.
Import tunnel config manager watcher cmd.
Local Open Scope manager_scope.
Variable Unmarshal : string → error + Config.

Implicit Types (m : Manager) (k : string) (c : TunnelConfig) (cfg : Config).

(** The loop of [main] over tunnels with distinct names, none of them
    registered: every [Add] succeeds. *)
Lemma addTunnels_fresh (l : list TunnelConfig) (lines0 : list Line) m :
  NoDup (Name <$> l) → (∀ c, c ∈ l → tunnels m !! Name c = None) →
  ∃ m',
    forEachAcc l lines0 (λ lines tunnelCfg,
      err ← Add tunnelCfg;
      match err with
      | Some err => ret (lines ++ [LineAddFailed (Name tunnelCfg) err])
      | None =>
        ret (lines ++ [LineAdded (Name tunnelCfg) (RemoteHost tunnelCfg)
                         (RemotePort tunnelCfg) (LocalPort tunnelCfg)])
      end) m =
    Done (lines0 ++ ((λ c, LineAdded (Name c) (RemoteHost c) (RemotePort c)
                             (LocalPort c)) <$> l)) m' [] ∧
    sshConfig m' = sshConfig m ∧ done m' = done m ∧ tunnelDones m' = tunnelDones m ∧
    (∀ c, c ∈ l →
       tunnels m' !! Name c =
         Some (NewTunnel (sshConfig m) (RemoteHost c) (RemotePort c) (LocalPort c)) ∧
       configs m' !! Name c = Some c) ∧
    (∀ k, k ∉ Name <$> l →
       tunnels m' !! k = tunnels m !! k ∧ configs m' !! k = configs m !! k).
Proof.
  match goal with |- context [forEachAcc _ _ ?b] => set (body := b) end.
  revert lines0 m. induction l as [|c l IH]; intros lines0 m Hnd Hfresh.
  { exists m. cbn [forEachAcc fmap list_fmap]. rewrite app_nil_r.
    split_and!; try done. intros c Hc. by apply elem_of_nil in Hc. }
  rewrite fmap_cons in Hnd. apply NoDup_cons in Hnd as [Hc Hnd].
  set (tun := NewTunnel (sshConfig m) (RemoteHost c) (RemotePort c) (LocalPort c)).
  set (m1 := set_configs <[Name c := c]> (set_tunnels <[Name c := tun]> m)).
  set (line := LineAdded (Name c) (RemoteHost c) (RemotePort c) (LocalPort c)).
  assert (Hstep : body lines0 c m = Done (lines0 ++ [line]) m1 []).
  { subst body. cbn beta. unfold bind. rewrite Add_eq. unfold Add_result.
    rewrite Hfresh by left. done. }
  assert (Hother : ∀ c', c' ∈ l → Name c' ≠ Name c).
  { intros c' Hc' Heq. apply Hc. rewrite <- Heq. by apply list_elem_of_fmap_2. }
  destruct (IH (lines0 ++ [line]) m1) as (m' & Hrun & Hssh & Hdone & Hdones & Hin & Hout);
    [done| |].
  { intros c' Hc'. subst m1; simpl. rewrite lookup_insert_ne by (symmetry; by apply Hother).
    apply Hfresh. by right. }
  exists m'. split_and!; try done.
  - cbn [forEachAcc]. unfold bind at 1. rewrite Hstep, Hrun.
    by rewrite fmap_cons, <- app_assoc.
  - intros c' [->|Hc']%elem_of_cons.
    + destruct (Hout (Name c) Hc) as [-> ->]. subst m1; simpl.
      by rewrite !lookup_insert_eq.
    + apply Hin. done.
  - intros k Hk. rewrite fmap_cons in Hk. apply not_elem_of_cons in Hk as [Hkc Hk].
    destruct (Hout k Hk) as [-> ->]. subst m1; simpl.
    by rewrite !lookup_insert_ne.
Qed.

(** The manager [main] has built and the lines it has printed when it
    creates the watcher, for a config whose tunnel names are distinct. *)
Lemma startTunnels_state cfg :
  NoDup (Name <$> TunnelConfigs cfg) →
  ∃ (errors : gmap string error) m,
    startTunnels cfg =
      Done (((λ c, LineAdded (Name c) (RemoteHost c) (RemotePort c) (LocalPort c))
               <$> TunnelConfigs cfg)
            ++ ((λ '(name, err), LineStartFailed name err) <$> map_to_list errors)
            ++ ((λ '(name, tun), LineStatus name (Tunnel_Status tun))
                  <$> map_to_list (tunnels m))) m [] ∧
    sshConfig m = SSH cfg ∧ done m = chanOpen ∧
    (∀ c, c ∈ TunnelConfigs cfg →
       let tun := NewTunnel (SSH cfg) (RemoteHost c) (RemotePort c) (LocalPort c) in
       view m (Name c) =
         Entry (Some (Tunnel_Start tun).1) (Some c)
           (if bool_decide ((Tunnel_Start tun).2 = None) && Enabled (AutoRestart c)
            then Some chanOpen else None) ∧
       errors !! Name c = ErrFailedToStart (Name c) <$> (Tunnel_Start tun).2) ∧
    (∀ k, k ∉ Name <$> TunnelConfigs cfg →
       view m k = Entry None None None ∧ errors !! k = None).
Proof.
  intros Hnd. unfold startTunnels, addTunnels.
  destruct (addTunnels_fresh (TunnelConfigs cfg) [] (NewManager (SSH cfg)) Hnd)
    as (m1 & Hrun1 & Hssh1 & Hdone1 & Hdones1 & Hin1 & Hout1); [done|].
  destruct (StartAll_started m1) as (errors & m2 & Hrun2 & _ & Hssh2 & Hdone2 & Hv & Herr).
  { intros k ch. rewrite Hdones1. simpl. by rewrite lookup_empty. }
  exists errors, m2. split_and!.
  - unfold bind at 1. rewrite Hrun1. unfold bind at 1. rewrite Hrun2.
    unfold bind, get, ret. simpl. done.
  - by rewrite Hssh2, Hssh1.
  - by rewrite Hdone2, Hdone1.
  - intros c Hc. cbn zeta. destruct (Hin1 c Hc) as [Ht Hcfg]. simpl in Ht.
    rewrite Hv, Herr. unfold started, startError, view. simpl.
    rewrite Ht, Hcfg, Hdones1. simpl. rewrite lookup_empty.
    split; [|done]. by destruct (Tunnel_Start _).2.
  - intros k Hk. destruct (Hout1 k Hk) as [Ht Hcfg]. simpl in Ht, Hcfg.
    rewrite Hv, Herr. unfold started, view. simpl.
    rewrite Ht, Hcfg, Hdones1. simpl. by rewrite !lookup_empty.
Qed.

Lemma Validate_NoDup cfg : Validate cfg = None → NoDup (Name <$> TunnelConfigs cfg).
Proof.
  unfold Validate. destruct (SSHConfig_Validate (SSH cfg)); [done|].
  case_decide; [done|]. intros Hv. apply validateTunnels_None in Hv.
  apply Hv.
Qed.

(** X13. When [Load] has returned a config, [main] registers exactly the
    tunnels of the config and no [Add] fails: each tunnel is built from the
    SSH block and the entry of the config, stored with that entry and
    started once; a supervisor runs for it exactly when it started and the
    entry enables auto-restart. [main] prints an added line and a status
    line for every tunnel and a start-failure line for every tunnel that
    did not start, and the manager it hands to the watcher satisfies the
    invariants. *)
Theorem main_registers_the_loaded_config sys path cfg :
  Load Unmarshal sys path = inr cfg →
  ∃ lines m, startTunnels cfg = Done lines m [] ∧
    wf m ∧ sshConfig m = SSH cfg ∧
    dom (tunnels m) = list_to_set (Name <$> TunnelConfigs cfg) ∧
    (∀ c, c ∈ TunnelConfigs cfg →
       let tun := NewTunnel (SSH cfg) (RemoteHost c) (RemotePort c) (LocalPort c) in
       tunnels m !! Name c = Some (Tunnel_Start tun).1 ∧
       configs m !! Name c = Some c ∧
       (is_Some (tunnelDones m !! Name c) ↔
          (Tunnel_Start tun).2 = None ∧ Enabled (AutoRestart c) = true) ∧
       LineAdded (Name c) (RemoteHost c) (RemotePort c) (LocalPort c) ∈ lines ∧
       LineStatus (Name c) (Tunnel_Status (Tunnel_Start tun).1) ∈ lines ∧
       (∀ err, (Tunnel_Start tun).2 = Some err →
          LineStartFailed (Name c) (ErrFailedToStart (Name c) err) ∈ lines)) ∧
    (∀ name err, LineAddFailed name err ∉ lines).
Proof.
  intros Hload. pose proof (Validate_NoDup _ (Load_inr _ _ _ _ Hload)) as Hnd.
  destruct (startTunnels_state cfg Hnd) as (errors & m & Hrun & Hssh & Hdone & Hin & Hout).
  eexists _, m. split; [exact Hrun|].
  assert (Hnames : ∀ k, k ∈ Name <$> TunnelConfigs cfg → ∃ c, c ∈ TunnelConfigs cfg ∧ Name c = k).
  { intros k (c & -> & Hc)%list_elem_of_fmap. eauto. }
  split_and!.
  - apply wf_entries. intros k.
    destruct (decide (k ∈ Name <$> TunnelConfigs cfg)) as [Hk|Hk].
    + destruct (Hnames k Hk) as (c & Hc & <-). destruct (Hin c Hc) as [-> _].
      unfold entry_wf. simpl. split_and!; eauto.
      * split; eauto.
      * by intros ? [= <-].
      * intros ch. destruct (_ && _); by intros [= <-].
    + destruct (Hout k Hk) as [-> _]. unfold entry_wf. simpl.
      split_and!; try done; try (by intros [? ?]); try (split; by intros [? ?]).
  - done.
  - apply set_eq. intros k. rewrite elem_of_dom, elem_of_list_to_set.
    destruct (decide (k ∈ Name <$> TunnelConfigs cfg)) as [Hk|Hk].
    + destruct (Hnames k Hk) as (c & Hc & <-). destruct (Hin c Hc) as [Hv _].
      apply (f_equal e_tunnel) in Hv. simpl in Hv. rewrite Hv. split; eauto.
    + destruct (Hout k Hk) as [Hv _].
      apply (f_equal e_tunnel) in Hv. simpl in Hv. rewrite Hv.
      split; [by intros [? ?]|done].
  - intros c Hc. cbn zeta. destruct (Hin c Hc) as [Hv Herr]. cbn zeta in Hv, Herr.
    set (tun := NewTunnel (SSH cfg) (RemoteHost c) (RemotePort c) (LocalPort c)) in *.
    pose proof (f_equal e_tunnel Hv) as Ht. pose proof (f_equal e_config Hv) as Hcfg.
    pose proof (f_equal e_done Hv) as Hd. simpl in Ht, Hcfg, Hd.
    split_and!; try done.
    + rewrite Hd. destruct (Tunnel_Start tun).2 as [err|]; simpl.
      { split; [by intros [? ?]|by intros [? _]]. }
      destruct (Enabled (AutoRestart c)); split; eauto; try (by intros [? ?]).
    + apply elem_of_app. left. apply list_elem_of_fmap. by exists c.
    + apply elem_of_app. right. apply elem_of_app. right.
      apply list_elem_of_fmap. exists (Name c, (Tunnel_Start tun).1).
      split; [done|]. by apply elem_of_map_to_list.
    + intros err Hstart. rewrite Hstart in Herr. simpl in Herr.
      apply elem_of_app. right. apply elem_of_app. left.
      apply list_elem_of_fmap. exists (Name c, ErrFailedToStart (Name c) err).
      split; [done|]. by apply elem_of_map_to_list.
  - intros name err [Hl|[Hl|Hl]%elem_of_app]%elem_of_app.
    + by apply list_elem_of_fmap in Hl as (c & ? & _).
    + by apply list_elem_of_fmap in Hl as ([? ?] & ? & _).
    + by apply list_elem_of_fmap in Hl as ([? ?] & ? & _).
Qed.

(** X14. Right after startup a reload of the file that [main] loaded
    changes nothing: [reload] returns, the manager is the one [main] built
    (no tunnel is removed, added or restarted) and nothing is logged. *)
Theorem reload_after_startup_changes_nothing sys (w : Watcher) cfg :
  Load Unmarshal sys (configPath w) = inr cfg →
  ∃ lines m, startTunnels cfg = Done lines m [] ∧
    reload Unmarshal sys w m = Done () m [].
Proof.
  intros Hload. pose proof (Validate_NoDup _ (Load_inr _ _ _ _ Hload)) as Hnd.
  destruct (startTunnels_state cfg Hnd) as (errors & m & Hrun & Hssh & Hdone & Hin & Hout).
  eexists _, m. split; [exact Hrun|].
  assert (Hnoop : Reconcile cfg m = Done None m []).
  { apply Reconcile_noop; [done| |].
    - intros k. destruct (decide (k ∈ Name <$> TunnelConfigs cfg)) as [Hk|Hk].
      + apply list_elem_of_fmap in Hk as Hk'. destruct Hk' as (c & -> & Hc).
        destruct (Hin c Hc) as [Hv _].
        apply (f_equal e_tunnel) in Hv. simpl in Hv. rewrite Hv. split; eauto.
      + destruct (Hout k Hk) as [Hv _].
        apply (f_equal e_tunnel) in Hv. simpl in Hv. rewrite Hv.
        split; [by intros [? ?]|done].
    - intros k c [<- Hc]%newConfigsOf_lookup. destruct (Hin c Hc) as [Hv _].
      by apply (f_equal e_config) in Hv. }
  unfold reload. rewrite Hload. unfold bind. rewrite Hnoop. done.
Qed.

End startup.

(** ** [Load]: variables that are set, files without variables *)
Section load_more.
Context `{!tunnel.Lib}.
Import os config.
Variable Unmarshal : string → error + Config.

Implicit Types (s pre name post value : string) (c : ascii) (f : string → string).

Lemma Expand_braced_value f pre name post :
  mentions "$" pre = false → name ≠ EmptyString → mentions "}" name = false →
  Expand f (pre +:+ String "$" (String "{" (name +:+ String "}" post))) =
  pre +:+ f name +:+ Expand f post.
Proof.
  intros Hpre Hne Hname. rewrite Expand_literal by done. f_equal.
  rewrite Expand_cons. cbn [Ascii.eqb Bool.eqb andb].
  rewrite bool_decide_eq_false_2 by done. cbn [negb].
  rewrite getShellName_braced by done. cbn [fst snd].
  unfold expansion. rewrite decide_False by (by intros [? _]).
  rewrite decide_False by done. do 2 f_equal.
  replace (String.length name + 2)%nat with
    (S (String.length (name +:+ String "}" EmptyString)))
    by (rewrite length_snoc; lia).
  cbn [skip]. by rewrite <- (append_snoc name "}" post), skip_app.
Qed.

Lemma Expand_bare_value f pre c name post :
  mentions "$" pre = false →
  isAlphaNum c = true → isShellSpecialVar c = false →
  alphaNumPrefix name = String.length name → alphaNumPrefix post = O →
  Expand f (pre +:+ String "$" (String c name +:+ post)) =
  pre +:+ f (String c name) +:+ Expand f post.
Proof.
  intros Hpre Hc Hsp Hname Hpost. rewrite Expand_literal by done. f_equal.
  rewrite Expand_cons. cbn [Ascii.eqb Bool.eqb andb].
  rewrite bool_decide_eq_false_2 by done. cbn [negb].
  rewrite getShellName_bare by done. cbn [fst snd].
  unfold expansion. rewrite decide_False by (by intros [? _]).
  rewrite decide_False by done. do 2 f_equal. by rewrite skip_app.
Qed.

Lemma Expand_plain f s : mentions "$" s = false → Expand f s = s.
Proof.
  induction s as [|c s IH]; [done|]. cbn [mentions].
  intros [Hc Hs]%orb_false_elim. rewrite Expand_cons, Hc. cbn [andb].
  by rewrite IH.
Qed.

(** X15. In the text that [Load] hands to the decoder, a [${name}] or a
    bare [$name] whose variable is set is replaced by the value of the
    variable, and the value is copied as it is: the expansion goes on with
    the text after the reference and does not look into the value, so a
    dollar sign in a value stays. *)
Theorem Load_inserts_the_value_as_it_is sys value :
  (∀ pre name post,
     mentions "$" pre = false → name ≠ EmptyString → mentions "}" name = false →
     environ sys !! name = Some value →
     ExpandEnv sys (pre +:+ String "$" (String "{" (name +:+ String "}" post))) =
       pre +:+ value +:+ ExpandEnv sys post) ∧
  (∀ pre c name post,
     mentions "$" pre = false →
     isAlphaNum c = true → isShellSpecialVar c = false →
     alphaNumPrefix name = String.length name → alphaNumPrefix post = O →
     environ sys !! String c name = Some value →
     ExpandEnv sys (pre +:+ String "$" (String c name +:+ post)) =
       pre +:+ value +:+ ExpandEnv sys post).
Proof.
  split.
  - intros pre name post Hpre Hne Hname Hset. unfold ExpandEnv.
    rewrite Expand_braced_value by done. unfold Getenv. by rewrite Hset.
  - intros pre c name post Hpre Hc Hsp Hname Hpost Hset. unfold ExpandEnv.
    rewrite Expand_bare_value by done. unfold Getenv. by rewrite Hset.
Qed.

(** X16. A config file without a dollar sign reaches the decoder exactly
    as it was read, so what [Load] returns for it does not depend on the
    environment of the process. *)
Theorem Load_of_plain_file_ignores_environment sys sys' path data :
  files sys !! path = Some data → files sys' !! path = Some data →
  mentions "$" data = false →
  ExpandEnv sys data = data ∧
  Load Unmarshal sys path = Load Unmarshal sys' path.
Proof.
  intros Hfile Hfile' Hplain. split; [by apply Expand_plain|].
  unfold Load, ReadFile, ExpandEnv. rewrite Hfile, Hfile'. cbn zeta.
  by rewrite !Expand_plain.
Qed.

End load_more.

(** ** [Validate]: the entry it reports *)
Section validate_more.
Context `{!tunnel.Lib}.
Import config.

Implicit Types (t : TunnelConfig) (ts : list TunnelConfig).

Lemma tunnels_ok_snoc ts t :
  tunnels_ok ts → entry_ok t →
  Name t ∉ Name <$> ts → LocalPort t ∉ LocalPort <$> ts →
  tunnels_ok (ts ++ [t]).
Proof.
  intros (Hall & Hn & Hp) Ht Hname Hport. unfold tunnels_ok.
  rewrite !fmap_app. cbn [fmap list_fmap]. split_and!.
  - apply Forall_app. split; [done|]. by apply Forall_singleton.
  - apply NoDup_app. split_and!; [done| |apply NoDup_singleton].
    intros x Hx [->|[]%elem_of_nil]%elem_of_cons. done.
  - apply NoDup_app. split_and!; [done| |apply NoDup_singleton].
    intros x Hx [->|[]%elem_of_nil]%elem_of_cons. done.
Qed.

Lemma validateTunnels_first (all : list TunnelConfig) i
    (names : gset string) (ports : gset Z) e :
  (∀ x, x ∈ names ↔ x ∈ Name <$> take i all) →
  (∀ p, p ∈ ports ↔ p ∈ LocalPort <$> take i all) →
  tunnels_ok (take i all) →
  validateTunnels i names ports (drop i all) = Some e →
  ∃ k t, all !! k = Some t ∧ offence all k t e ∧ tunnels_ok (take k all).
Proof.
  remember (drop i all) as ts eqn:Hts.
  revert i names ports Hts. induction ts as [|t ts IH]; intros i names ports Hts Hn Hp Hok.
  { done. }
  assert (Hi : all !! i = Some t).
  { rewrite <- (Nat.add_0_r i), <- lookup_drop, <- Hts. done. }
  assert (Hts' : ts = drop (S i) all).
  { rewrite (drop_S _ _ _ Hi) in Hts. by injection Hts. }
  assert (Htake : take (S i) all = take i all ++ [t]) by (by apply take_S_r).
  assert (Hearlier : ∀ {A} (g : TunnelConfig → A) (x : A),
            x ∈ g <$> take i all → ∃ j t', (j < i)%nat ∧ all !! j = Some t' ∧ g t' = x).
  { intros A g x (t' & -> & Hin)%list_elem_of_fmap.
    apply list_elem_of_lookup in Hin as [j Hj].
    apply lookup_take_Some in Hj as [Hj Hlt]. eauto. }
  cbn [validateTunnels].
  destruct (decide (Name t = EmptyString)) as [Hname|Hname].
  { intros [= <-]. exists i, t. split_and!; [done|by constructor|done]. }
  destruct (decide (Name t ∈ names)) as [Hdup|Hdup].
  { intros [= <-]. exists i, t. split_and!; [done| |done].
    apply Hn, Hearlier in Hdup as (j & t' & ? & ? & ?). by econstructor. }
  destruct (decide (RemoteHost t = EmptyString)) as [Hhost|Hhost].
  { intros [= <-]. exists i, t. split_and!; [done|by constructor|done]. }
  destruct (decide (RemotePort t ≤ 0)) as [Hrp|Hrp].
  { intros [= <-]. exists i, t. split_and!; [done|by constructor|done]. }
  destruct (decide (LocalPort t ≤ 0)) as [Hlp|Hlp].
  { intros [= <-]. exists i, t. split_and!; [done|by constructor|done]. }
  destruct (decide (LocalPort t ∈ ports)) as [Hdp|Hdp].
  { intros [= <-]. exists i, t. split_and!; [done| |done].
    apply Hp, Hearlier in Hdp as (j & t' & ? & ? & ?). by econstructor. }
  destruct (Enabled (AutoRestart t) && bool_decide (Interval (AutoRestart t) ≤ 0))
    eqn:Hint.
  { intros [= <-]. exists i, t. apply andb_prop in Hint as [Hen Hiv].
    apply bool_decide_eq_true in Hiv. split_and!; [done|by constructor|done]. }
  apply (IH (S i)); [done| | |].
  - intros x. rewrite Htake, fmap_app, elem_of_union, elem_of_singleton, elem_of_app, Hn.
    cbn [fmap list_fmap]. rewrite list_elem_of_singleton. tauto.
  - intros p. rewrite Htake, fmap_app, elem_of_union, elem_of_singleton, elem_of_app, Hp.
    cbn [fmap list_fmap]. rewrite list_elem_of_singleton. tauto.
  - rewrite Htake. apply tunnels_ok_snoc; [done| | |].
    + unfold entry_ok. split_and!; [done|done|lia|lia|].
      intros Hen. rewrite Hen in Hint. cbn [andb] in Hint.
      apply bool_decide_eq_false in Hint. lia.
    + by rewrite <- Hn.
    + by rewrite <- Hp.
Qed.

(** X17. [Validate] stops at the first entry that breaks a rule: when the
    SSH block is accepted and the list of tunnels is not empty, a failure
    names an entry such that all the entries before it are well formed and
    have distinct names and distinct local ports. *)
Theorem Validate_reports_the_first_offence (c : Config) e :
  tunnel.SSHConfig_Validate (SSH c) = None → TunnelConfigs c ≠ [] →
  Validate c = Some e →
  ∃ i t, TunnelConfigs c !! i = Some t ∧ offence (TunnelConfigs c) i t e ∧
    tunnels_ok (take i (TunnelConfigs c)).
Proof.
  intros Hssh Hne. unfold Validate. rewrite Hssh.
  case_decide as Hlen; [by apply length_zero_iff_nil in Hlen|].
  intros He. apply (validateTunnels_first (TunnelConfigs c) 0 ∅ ∅).
  - intros x. rewrite take_0. cbn [fmap list_fmap]. rewrite elem_of_empty, elem_of_nil. done.
  - intros p. rewrite take_0. cbn [fmap list_fmap]. rewrite elem_of_empty, elem_of_nil. done.
  - rewrite take_0. unfold tunnels_ok. cbn [fmap list_fmap].
    split_and!; [constructor|apply NoDup_nil_2|apply NoDup_nil_2].
  - by rewrite drop_0.
Qed.

End validate_more.

(** ** The further properties at concrete inputs *)
Section more_examples.
Local Existing Instance tunnel_model.lib.
Import tunnel config manager watcher cmd scenarios.
Local Open Scope manager_scope.

Lemma dones_open_mgrRunning : dones_open mgrRunning.
Proof.
  intros k c. unfold mgrRunning; simpl. rewrite lookup_singleton_Some. by intros [_ <-].
Qed.

(** X1 at a concrete input: the stopped tunnel [a], whose config enables
    auto-restart. *)
Lemma StartAll_starts_every_tunnel_witness :
  ∃ errors m', StartAll mgrA = Done errors m' [] ∧
    tunnels m' = (λ tun, (Tunnel_Start tun).1) <$> tunnels mgrA ∧
    configs m' = configs mgrA ∧
    (∀ k, errors !! k =
       tunnels mgrA !! k ≫= λ tun, ErrFailedToStart k <$> (Tunnel_Start tun).2) ∧
    (∀ k, tunnelDones m' !! k =
       match tunnels mgrA !! k with
       | Some tun =>
         if bool_decide ((Tunnel_Start tun).2 = None) &&
            Enabled (AutoRestart (default zeroTunnelConfig (configs mgrA !! k)))
         then Some chanOpen else tunnelDones mgrA !! k
       | None => tunnelDones mgrA !! k
       end).
Proof.
  apply (@StartAll_starts_every_tunnel tunnel_model.lib mgrA).
  apply dones_open_no_dones. reflexivity.
Defined.

(** X2 at a concrete input: the running tunnel [a] whose stop fails. *)
Lemma StopAll_stops_every_tunnel_witness :
  ∃ errors m', StopAll mgrStuck = Done errors m' [] ∧
    tunnels m' = (λ tun, (Tunnel_Stop tun).1) <$> tunnels mgrStuck ∧
    configs m' = configs mgrStuck ∧ tunnelDones m' = ∅ ∧
    sshConfig m' = sshConfig mgrStuck ∧ done m' = done mgrStuck ∧
    (∀ k, errors !! k = tunnels mgrStuck !! k ≫= λ tun, (Tunnel_Stop tun).2).
Proof.
  apply (@StopAll_stops_every_tunnel tunnel_model.lib mgrStuck).
  apply dones_open_mgrStuck.
Defined.

(** X3 at a concrete input: the running, supervised tunnel [a]. *)
Lemma Remove_succeeds_iff_witness :
  ∃ r m', Remove "a" mgrRunning = Done r m' [] ∧
    (r = None ↔
       ∃ tun, tunnels mgrRunning !! "a" = Some tun ∧
         (Tunnel_Status tun ≠ StatusRunning ∨ (Tunnel_Stop tun).2 = None)) ∧
    (r = None →
       tunnels m' !! "a" = None ∧ configs m' !! "a" = None ∧
       tunnelDones m' !! "a" = None) ∧
    (∀ k, k ≠ "a" → view m' k = view mgrRunning k) ∧
    sshConfig m' = sshConfig mgrRunning ∧ done m' = done mgrRunning.
Proof.
  apply (@Remove_succeeds_iff tunnel_model.lib "a" mgrRunning).
  apply dones_open_mgrRunning.
Defined.

(** X4 at a concrete input: the stopped tunnel [a]. *)
Lemma Start_then_Stop_cancels_supervisor_witness :
  ∃ r1 r2 m',
    (r1 ← manager.Start "a"; r2 ← manager.Stop "a"; ret (r1, r2)) mgrA =
      Done (r1, r2) m' [] ∧
    tunnelDones m' = delete "a" (tunnelDones mgrA) ∧
    tunnels m' =
      alter (λ tun, (Tunnel_Stop (Tunnel_Start tun).1).1) "a" (tunnels mgrA) ∧
    configs m' = configs mgrA.
Proof.
  apply (@Start_then_Stop_cancels_supervisor tunnel_model.lib "a" mgrA).
  apply dones_open_no_dones. reflexivity.
Defined.

(** X7 at a concrete input: a supervisor that ticks while its tunnel runs
    and once more after the tunnel was removed. *)
Lemma maps_stay_consistent_under_ticks_witness :
  ∃ m' out,
    execSteps [Call (OpAdd cfgA); Call (OpStart "a"); Tick "a";
               Call (OpRemove "a"); Tick "a"; Call (OpAdd cfgB)]
      (NewManager tunnel_model.testSSH) = Done () m' out ∧
    dom (tunnelDones m') ⊆ dom (tunnels m') ∧ dom (tunnels m') = dom (configs m') ∧
    (∀ k cfg, configs m' !! k = Some cfg → Name cfg = k) ∧
    (∀ k c, tunnelDones m' !! k = Some c → c = chanOpen).
Proof.
  eexists _, _. split; [vm_compute; reflexivity|].
  eapply (@maps_stay_consistent_under_ticks tunnel_model.lib tunnel_model.testSSH
            [Call (OpAdd cfgA); Call (OpStart "a"); Tick "a";
             Call (OpRemove "a"); Tick "a"; Call (OpAdd cfgB)]).
  vm_compute. reflexivity.
Defined.

(** X8 at a concrete input: the running tunnel [a] and a new configuration
    that holds its config. *)
Lemma Reconcile_leaves_unchanged_tunnels_witness :
  ∃ m' out, Reconcile onlyA mgrRunning = Done None m' out ∧
    tunnels m' !! "a" = tunnels mgrRunning !! "a" ∧
    configs m' !! "a" = Some cfgA ∧
    tunnelDones m' !! "a" = tunnelDones mgrRunning !! "a".
Proof.
  destruct (@Reconcile_leaves_unchanged_tunnels tunnel_model.lib onlyA mgrRunning
              dones_open_mgrRunning) as (m' & out & Hrun & Hsame & _).
  exists m', out. split; [exact Hrun|].
  apply (Hsame "a" cfgA cfgA); try reflexivity.
  eexists. reflexivity.
Defined.

(** X9 at a concrete input: the running tunnel [a] and a new configuration
    that moves it to another remote host. The tunnel that is registered
    afterwards still points to the old host. *)
Lemma Reconcile_restarts_changed_tunnel_witness :
  ∃ m' out, Reconcile movedA mgrRunning = Done None m' out ∧
    tunnels m' !! "a" =
      Some (Tunnel_Restart (tunnel_model.with_status StatusRunning None (fresh cfgA))).1 ∧
    configs m' !! "a" = Some cfgA2 ∧
    tunnelDones m' !! "a" = tunnelDones mgrRunning !! "a".
Proof.
  apply (@Reconcile_restarts_changed_tunnel tunnel_model.lib movedA mgrRunning "a"
           (tunnel_model.with_status StatusRunning None (fresh cfgA)) cfgA cfgA2).
  - apply dones_open_mgrRunning.
  - reflexivity.
  - reflexivity.
  - vm_compute. reflexivity.
  - vm_compute. reflexivity.
Defined.

(** X10 at a concrete input: tunnel [b] is new. *)
Lemma Reconcile_adds_and_starts_witness :
  ∃ m' out tun, Reconcile onlyB mgrA = Done None m' out ∧
    tun = NewTunnel (SSH onlyB) (RemoteHost cfgB) (RemotePort cfgB) (LocalPort cfgB) ∧
    tunnels m' !! "b" = Some (Tunnel_Start tun).1 ∧
    configs m' !! "b" = Some cfgB ∧
    tunnelDones m' !! "b" =
      if bool_decide ((Tunnel_Start tun).2 = None) && Enabled (AutoRestart cfgB)
      then Some chanOpen else tunnelDones mgrA !! "b".
Proof.
  apply (@Reconcile_adds_and_starts tunnel_model.lib onlyB mgrA "b" cfgB).
  - apply dones_open_no_dones. reflexivity.
  - reflexivity.
  - vm_compute. reflexivity.
Defined.

(** X11 at a concrete input: tunnel [a] is not in the new configuration and
    its stop fails. *)
Lemma Reconcile_leaves_no_supervisor_outside_new_witness :
  ∃ m' out, Reconcile onlyB mgrStuck = Done None m' out ∧
    ∀ k, k ∉ Name <$> TunnelConfigs onlyB → tunnelDones m' !! k = None.
Proof.
  apply (@Reconcile_leaves_no_supervisor_outside_new tunnel_model.lib onlyB mgrStuck).
  apply wf_mgrStuck.
Defined.


(** X13 at a concrete input: the file on disk holds the tunnels [a] and
    [b]. *)
Lemma main_registers_the_loaded_config_witness :
  ∃ lines m, startTunnels bothAB = Done lines m [] ∧
    wf m ∧ dom (tunnels m) = list_to_set (Name <$> TunnelConfigs bothAB) ∧
    ∀ name err, LineAddFailed name err ∉ lines.
Proof.
  destruct (@main_registers_the_loaded_config tunnel_model.lib
              (decodeOf "tunnels: [a, b]" bothAB) diskAB "config.yaml" bothAB)
    as (lines & m & Hrun & Hwf & _ & Hdom & _ & Hlines).
  { reflexivity. }
  exists lines, m. split; [exact Hrun|]. split; [exact Hwf|].
  split; [exact Hdom|exact Hlines].
Defined.

(** X14 at a concrete input: the same file, reloaded right after startup. *)
Lemma reload_after_startup_changes_nothing_witness :
  ∃ lines m, startTunnels bothAB = Done lines m [] ∧
    reload (decodeOf "tunnels: [a, b]" bothAB) diskAB theWatcher m = Done () m [].
Proof.
  apply (@reload_after_startup_changes_nothing tunnel_model.lib
           (decodeOf "tunnels: [a, b]" bothAB) diskAB theWatcher bothAB).
  reflexivity.
Defined.

(** X15 at a concrete input: the password line of the README with the
    variable set to a value that has a dollar sign. *)
Lemma Load_inserts_the_value_as_it_is_witness :
  os.ExpandEnv diskAB "password: ${SSH_PASSWORD} # comment" =
    "password: pa$$word # comment" ∧
  os.ExpandEnv diskAB "password: $SSH_PASSWORD # comment" =
    "password: pa$$word # comment".
Proof.
  split.
  - apply (proj1 (Load_inserts_the_value_as_it_is diskAB "pa$$word")
             "password: " "SSH_PASSWORD" " # comment"); reflexivity || discriminate.
  - apply (proj2 (Load_inserts_the_value_as_it_is diskAB "pa$$word")
             "password: " "S"%char "SH_PASSWORD" " # comment"); reflexivity.
Defined.

(** X16 at a concrete input: the same file, with and without the variable
    in the environment. *)
Lemma Load_of_plain_file_ignores_environment_witness :
  os.ExpandEnv diskAB "tunnels: [a, b]" = "tunnels: [a, b]" ∧
  Load (decodeOf "tunnels: [a, b]" bothAB) diskAB "config.yaml" =
  Load (decodeOf "tunnels: [a, b]" bothAB)
    {| os.files := os.files diskAB; os.environ := ∅ |} "config.yaml".
Proof.
  apply (@Load_of_plain_file_ignores_environment tunnel_model.lib
           (decodeOf "tunnels: [a, b]" bothAB) diskAB
           {| os.files := os.files diskAB; os.environ := ∅ |}
           "config.yaml" "tunnels: [a, b]"); reflexivity.
Defined.

(** X17 at a concrete input: the second entry repeats the name of the
    first. *)
Lemma Validate_reports_the_first_offence_witness :
  ∃ i t, TunnelConfigs twiceA !! i = Some t ∧
    offence (TunnelConfigs twiceA) i t (ErrDuplicateName "a") ∧
    tunnels_ok (take i (TunnelConfigs twiceA)).
Proof.
  apply (@Validate_reports_the_first_offence tunnel_model.lib twiceA
           (ErrDuplicateName "a")).
  - reflexivity.
  - discriminate.
  - reflexivity.
Defined.

End more_examples.
